(** * TeemUp-n8n service: the event pipeline of [app.py]

    A shallow embedding of the request path of [app.py]: source selection
    ([_determine_meetup_url]), the bounded fetch ([_fetch_html]), the rule
    matcher ([_pick_event_cfg]), the start-time normaliser
    ([_ensure_datetime]) and the loop of [events] that filters, enriches and
    sorts the raw events; and of the configuration loader ([load_config],
    [_get_config]).

    Conventions of the embedding.
    - A Python [str] is the sequence of its code points; the model covers the
      strings whose code points are below 256, held in a [string].
    - Python integers are unbounded: [Z].
    - A [dict] read only through [get] is a [gmap]; the [event_config]
      mapping, whose key order the matcher observes, is an association list in
      declaration order.  The mappings of the configuration snapshot have
      their declared types: [meetup_groups] is keyed by group names, which
      are strings, and [event_config] is a [Dict[str, Dict[str, Any]]].
    - [Optional[str]] is [option string]; loosely typed configuration values
      are a [pyval].
    - The [datetime] and [zoneinfo] libraries, the network and the [teemup]
      parser are collaborators of the program: they are the fields of the
      classes [DatetimeLib] and [Upstream], and every statement holds for all
      of them.  A call that can raise has an [option] result; an exception
      the program does not catch ends the function that made the call, the
      handler included, with [Raise]. *)

From Stdlib Require Import ZArith Ascii Lia Sorted Permutation.
From stdpp Require Import base option list strings gmap.

Set Warnings "-register-all".

Local Open Scope Z_scope.

(** ** Python values *)

Inductive pyval :=
| VNone
| VBool (b : bool)
| VInt (n : Z)
| VStr (s : string)
| VList (xs : list pyval)
| VDict (kvs : list (pyval * pyval)).

(** Truth value testing: [None], [False], zero and empty containers are
    false. *)
Definition truthy (v : pyval) : bool :=
  match v with
  | VNone => false
  | VBool b => b
  | VInt n => negb (n =? 0)
  | VStr s => negb (String.eqb s "")
  | VList xs => match xs with [] => false | _ => true end
  | VDict kvs => match kvs with [] => false | _ => true end
  end.

(** [x or y] *)
Definition py_or (x y : pyval) : pyval := if truthy x then x else y.

(** [s or ""] for an optional string, and the test [if s:]. *)
Definition str_or_empty (s : option string) : string := default "" s.
Definition str_truthy (s : string) : bool := negb (String.eqb s "").
Definition opt_truthy (s : option string) : bool := str_truthy (str_or_empty s).

(** [d.get(k)] on a dict with string keys: [None] when the key is absent. *)
Definition dict_get (d : gmap string pyval) (k : string) : pyval :=
  default VNone (d !! k).

(** ** Strings *)

Module Str.

Definition code (c : ascii) : N := N_of_ascii c.

(** [str.isspace] on one code point below 256: TAB..CR, FS..US, SPACE,
    NEXT LINE and NO-BREAK SPACE. *)
Definition is_space (c : ascii) : bool :=
  let n := code c in
  (((9 <=? n) && (n <=? 13)) || ((28 <=? n) && (n <=? 32))
   || (n =? 133) || (n =? 160))%N.

(** [str.lower] on one code point below 256: A..Z and the capital letters
    of the Latin-1 supplement (all of U+00C0..U+00DE but the
    multiplication sign) move up by 32. *)
Definition lower_char (c : ascii) : ascii :=
  let n := code c in
  if (((65 <=? n) && (n <=? 90))
      || ((192 <=? n) && (n <=? 222) && negb (n =? 215)))%N
  then ascii_of_N (n + 32) else c.

Fixpoint lower (s : string) : string :=
  match s with
  | EmptyString => EmptyString
  | String c s' => String (lower_char c) (lower s')
  end.

(** [needle in hay] *)
Fixpoint contains (needle hay : string) : bool :=
  if String.prefix needle hay then true
  else match hay with
       | EmptyString => false
       | String _ hay' => contains needle hay'
       end.

(** [s.lstrip()], [s.rstrip()] and [s.strip()] *)
Fixpoint lstrip (s : string) : string :=
  match s with
  | EmptyString => EmptyString
  | String c s' => if is_space c then lstrip s' else s
  end.

Fixpoint rstrip (s : string) : string :=
  match s with
  | EmptyString => EmptyString
  | String c s' =>
      match rstrip s' with
      | EmptyString => if is_space c then EmptyString else String c EmptyString
      | r => String c r
      end
  end.

Definition strip (s : string) : string := rstrip (lstrip s).

(** [s.rstrip(chars)] for a one-character [chars]: every trailing
    occurrence of [ch] goes. *)
Fixpoint rstrip_char (ch : ascii) (s : string) : string :=
  match s with
  | EmptyString => EmptyString
  | String c s' =>
      match rstrip_char ch s' with
      | EmptyString => if Ascii.eqb c ch then EmptyString else String c EmptyString
      | r => String c r
      end
  end.

(** [s.endswith(suffix)] for a one-character suffix *)
Fixpoint ends_with_char (ch : ascii) (s : string) : bool :=
  match s with
  | EmptyString => false
  | String c EmptyString => Ascii.eqb c ch
  | String _ s' => ends_with_char ch s'
  end.

(** [s[:-1]] *)
Fixpoint drop_last (s : string) : string :=
  match s with
  | EmptyString => EmptyString
  | String _ EmptyString => EmptyString
  | String c s' => String c (drop_last s')
  end.

(** The longest prefix of non-whitespace characters: what a greedy [\S+]
    consumes (when it is not empty). *)
Fixpoint take_nonspace (s : string) : string :=
  match s with
  | EmptyString => EmptyString
  | String c s' => if is_space c then EmptyString else String c (take_nonspace s')
  end.

Fixpoint drop (n : nat) (s : string) : string :=
  match n, s with
  | O, _ => s
  | S n', String _ s' => drop n' s'
  | S _, EmptyString => EmptyString
  end.

(** [n] copies of a character *)
Fixpoint replicate (n : nat) (ch : ascii) : string :=
  match n with
  | O => EmptyString
  | S n' => String ch (replicate n' ch)
  end.

End Str.

(** ** Regular expression [https?://\S+]

    [re_match_at s] is the match of the pattern anchored at the start of [s]:
    the literal [http], the optional [s] (tried first, the quantifier being
    greedy; when the rest fails with the [s] consumed the matcher backtracks
    to the alternative without it), the literal [://] and the longest run of
    one or more non-whitespace characters.  [re_search] tries every start
    position from left to right, the empty suffix included. *)

Definition re_tail (scheme : string) (s : string) : option string :=
  if String.prefix scheme s then
    match Str.take_nonspace (Str.drop (String.length scheme) s) with
    | EmptyString => None
    | run => Some (scheme +:+ run)
    end
  else None.

Definition re_match_at (s : string) : option string :=
  match re_tail "https://" s with
  | Some m => Some m
  | None => re_tail "http://" s
  end.

Fixpoint re_search (s : string) : option string :=
  match re_match_at s with
  | Some m => Some m
  | None =>
      match s with
      | EmptyString => None
      | String _ s' => re_search s'
      end
  end.

(** ** Dates and times

    A [datetime] value: the wall-clock fields and the attached [tzinfo], if
    any ([None] for a naive value). *)

Record wallclock := WallClock {
  year : Z; month : Z; day : Z;
  hour : Z; minute : Z; second : Z; microsecond : Z;
  fold : Z
}.

Record datetime (tz : Type) := DateTime {
  wall : wallclock;
  tzinfo : option tz
}.
Arguments DateTime {tz} _ _.
Arguments wall {tz} _.
Arguments tzinfo {tz} _.

(** [dt.replace(tzinfo=zone)]: the wall clock stays, the zone is attached. *)
Definition replace_tzinfo {tz} (dt : datetime tz) (zone : tz) : datetime tz :=
  {| wall := wall dt; tzinfo := Some zone |}.

(** The operations of [datetime] and [zoneinfo] the program calls.
    - [fromisoformat s]: [None] stands for [ValueError].
    - [astimezone dt zone]: the same instant on the wall clock of [zone];
      [None] stands for the [OverflowError] of an instant that [datetime]
      cannot hold on that wall clock, or in UTC on the way there.
    - [utc_epoch_ms dt]: the value of
      [int(dt.astimezone(timezone.utc).timestamp() * 1000)], whose
      floating-point arithmetic is the library's; [None] stands for the
      [OverflowError] of that [astimezone].
    - [strftime dt fmt].
    - [ZoneInfo name]: [None] when the constructor raises.
    - [now zone]: [datetime.now(zone)], the one read of the clock. *)
Class DatetimeLib := {
  tzone : Type;
  fromisoformat : string -> option (datetime tzone);
  astimezone : datetime tzone -> tzone -> option (datetime tzone);
  utc_epoch_ms : datetime tzone -> option Z;
  strftime : datetime tzone -> string -> string;
  ZoneInfo : string -> option tzone;
  now : tzone -> datetime tzone
}.

(** ** Raw events, rules, output records and configuration *)

(** The value under ["starts_at"]: absent or [None], a [datetime], a [str],
    or a value of any other type. *)
Inductive start_value (tz : Type) :=
| StartNone
| StartDatetime (d : datetime tz)
| StartStr (s : string)
| StartOther.
Arguments StartNone {tz}.
Arguments StartDatetime {tz} _.
Arguments StartStr {tz} _.
Arguments StartOther {tz}.

Record RawEvent (tz : Type) := {
  ev_title : option string;
  ev_starts_at : start_value tz;
  ev_url : option string;
  ev_description : option string
}.
Arguments ev_title {tz} _.
Arguments ev_starts_at {tz} _.
Arguments ev_url {tz} _.
Arguments ev_description {tz} _.

(** A raw event that passed the normaliser: the trimmed title, the start in
    the target zone and its UTC milliseconds. *)
Record NormalizedEvent (tz : Type) := {
  ne_title : string;
  startsAtLocal : datetime tz;
  startsAtUtcMillis : Z
}.
Arguments ne_title {tz} _.
Arguments startsAtLocal {tz} _.
Arguments startsAtUtcMillis {tz} _.

(** An override rule is a dict; its entries are loosely typed. *)
Abbreviation rule := (gmap string pyval).

(** A dict whose iteration order matters: the pairs in insertion order, the
    keys pairwise distinct. *)
Definition odict (V : Type) := list (string * V).

Definition od_keys {V} (d : odict V) : list string := d.*1.

Fixpoint od_get {V} (d : odict V) (k : string) : option V :=
  match d with
  | [] => None
  | (k', v) :: d' => if String.eqb k' k then Some v else od_get d' k
  end.

Record OutputEvent := {
  main : string;
  url : string;
  timeDisp : string;
  timeLocalHM : string;
  timeISO : string;
  isAllDay : bool;
  daysDiff : Z;
  thread_id : pyval;
  reminder : bool
}.

(** The configuration document after [load_config]: [default_tz] is always
    present; a mapping that is missing or null is [None]. *)
Record Config := {
  default_tz : string;
  meetup_groups : option (gmap string pyval);
  event_config : option (odict rule)
}.

(** ** Exceptions *)

Inductive detail :=
| UnknownGroup (group : string)
| MissingSource
| TooLarge (max_bytes : Z)
| InvalidTimeZone (tz_name : string)
| FetchError
| ParseError.

(** [HTTPException(status_code, detail)], or any other exception. *)
Inductive exn :=
| HTTPException (status_code : Z) (d : detail)
| OtherException.

Inductive result (A : Type) :=
| Return (a : A)
| Raise (e : exn).
Arguments Return {A} _.
Arguments Raise {A} _.

#[global] Instance result_ret : MRet result := fun _ a => Return a.
#[global] Instance result_bind : MBind result := fun _ _ k r =>
  match r with
  | Return a => k a
  | Raise e => Raise e
  end.

(** A library call that may raise an exception of its own, which is not an
    [HTTPException]. *)
Definition or_raise {A} (o : option A) : result A :=
  match o with
  | Some a => Return a
  | None => Raise OtherException
  end.

(** ** The rule matcher: [_pick_event_cfg] *)

(** The loop over [cfg.keys()]; [cfg[key]] cannot miss, [key] being one of
    the keys. *)
Fixpoint pick_loop (title_lc : string) (cfg : odict rule) (keys : list string)
    (chosen : rule) : rule :=
  match keys with
  | [] => chosen
  | key :: keys' =>
      if String.eqb key "default" then pick_loop title_lc cfg keys' chosen
      else if Str.contains (Str.lower key) title_lc
           then default chosen (od_get cfg key)
           else pick_loop title_lc cfg keys' chosen
  end.

Definition rule_or_empty (r : rule) : rule :=
  if (size r =? 0)%nat then ∅ else r.

Definition _pick_event_cfg (title : string) (cfg : odict rule) : rule :=
  let title_lc := Str.lower title in
  let chosen := rule_or_empty (default ∅ (od_get cfg "default")) in
  pick_loop title_lc cfg (od_keys cfg) chosen.

(** ** The start-time normaliser: [_ensure_datetime] *)

Section WithDatetime.
Context `{DatetimeLib}.

(** Lines 70-72: the text handed to the parser. *)
Definition iso_text (value : string) : string :=
  let s := Str.strip value in
  if Str.ends_with_char "Z" s then Str.drop_last s +:+ "+00:00" else s.

Definition _ensure_datetime (value : start_value tzone) : option (datetime tzone) :=
  match value with
  | StartNone => None
  | StartDatetime d => Some d
  | StartStr v => fromisoformat (iso_text v)
  | StartOther => None
  end.

Definition _format_time_disp (dt_local : datetime tzone) : string :=
  strftime dt_local "%A, %B %d, %Y at %I:%M %p".

Definition _format_time_local_hm (dt_local : datetime tzone) : string :=
  strftime dt_local "%I:%M %p".

Definition _format_time_iso_wall (dt_local : datetime tzone) : string :=
  strftime dt_local "%Y-%m-%dT%H:%M:%S".

(** [datetime.combine(now_local.date(), time(1, 0, 0), tzinfo=tz)] *)
Definition _today_1am_epoch_ms (zone : tzone) : result Z :=
  let now_local := now zone in
  let d := wall now_local in
  let today_1am_local :=
    {| wall := {| year := year d; month := month d; day := day d;
                  hour := 1; minute := 0; second := 0; microsecond := 0;
                  fold := 0 |};
       tzinfo := Some zone |} in
  or_raise (utc_epoch_ms today_1am_local).

End WithDatetime.

(** ** The bounded fetch: [_fetch_html] *)

(** The network and the parser.
    - [urlopen url]: the open response, or [None] when opening raises (a
      transport error, a timeout).
    - [body f]: the bytes the server sends for [f], all of them.
    - [read f amt]: what [f.read(amt)] returns, or [None] when it raises.
    - [teemup_parse html]: [None] when the parser raises. *)
Class Upstream `{DatetimeLib} := {
  response : Type;
  urlopen : pyval -> option response;
  body : response -> list Byte.byte;
  read : response -> Z -> option (list Byte.byte);
  teemup_parse : list Byte.byte -> option (list (RawEvent tzone))
}.

Definition default_max_bytes : Z := 3000000.

Section WithUpstream.
Context `{Upstream}.

Definition _fetch_html (url : pyval) (max_bytes : Z) : result (list Byte.byte) :=
  match urlopen url with
  | None => Raise OtherException
  | Some f =>
      data ← or_raise (read f (max_bytes + 1));
      if Z.of_nat (length data) >? max_bytes
      then Raise (HTTPException 413 (TooLarge max_bytes))
      else Return data
  end.

End WithUpstream.

(** ** Source selection: [_determine_meetup_url] *)

(** The value of an optional string argument when it is truthy. *)
Definition given (s : option string) : option string :=
  match s with
  | Some v => if str_truthy v then Some v else None
  | None => None
  end.

Definition _determine_meetup_url (cfg : Config) (group url : option string)
    : result pyval :=
  let groups := default ∅ (meetup_groups cfg) in
  match given url with
  | Some u => Return (VStr u)
  | None =>
      match given group with
      | Some g =>
          let meetup_url := dict_get groups g in
          if negb (truthy meetup_url)
          then Raise (HTTPException 400 (UnknownGroup g))
          else Return meetup_url
      | None =>
          if (size groups =? 1)%nat
          then match map_to_list groups with
               | (_, v) :: _ => Return v
               | [] => Raise OtherException
               end
          else Raise (HTTPException 400 MissingSource)
      end
  end.

(** ** The list sort: [items.sort(key=...)]

    The builtin sort is stable and compares keys with [<]; on strings that is
    the lexicographic order of the code points.  Insertion from the right
    computes the same list: an element goes in front of the first element
    whose key is not smaller, hence in front of those with an equal key that
    came after it. *)

Section Sort.
Context {A : Type} (key : A -> string).

Fixpoint insert_by_key (x : A) (l : list A) : list A :=
  match l with
  | [] => [x]
  | y :: l' =>
      if String.ltb (key y) (key x) then y :: insert_by_key x l'
      else x :: y :: l'
  end.

Fixpoint sort_by_key (l : list A) : list A :=
  match l with
  | [] => []
  | x :: l' => insert_by_key x (sort_by_key l')
  end.

End Sort.

(** ** The pipeline: the loop of [events] *)

Section Pipeline.
Context `{Upstream}.

(** Lines 188-191: attach the zone to a naive value, convert an aware one;
    the [OverflowError] of the conversion is not caught. *)
Definition localize (zone : tzone) (starts_at : datetime tzone)
    : result (datetime tzone) :=
  match tzinfo starts_at with
  | None => Return (replace_tzinfo starts_at zone)
  | Some _ => or_raise (astimezone starts_at zone)
  end.

(** Lines 199-204: the declared URL, else the first link of the
    description. *)
Definition resolve_link (ev : RawEvent tzone) : string :=
  let link := Str.strip (str_or_empty (ev_url ev)) in
  if negb (str_truthy link) then
    let desc := Str.strip (str_or_empty (ev_description ev)) in
    match re_search desc with
    | Some m => Str.rstrip_char ")" m
    | None => link
    end
  else link.

(** Lines 180-193 on their own: the title, the zoned start and its UTC
    milliseconds, [None] when the event is rejected, or the exception of
    lines 191 and 193. *)
Definition normalize (zone : tzone) (ev : RawEvent tzone)
    : result (option (NormalizedEvent tzone)) :=
  let title := Str.strip (str_or_empty (ev_title ev)) in
  if negb (str_truthy title) then Return None else
  match _ensure_datetime (ev_starts_at ev) with
  | None => Return None
  | Some starts_at =>
      starts_local ← localize zone starts_at;
      event_ms ← or_raise (utc_epoch_ms starts_local);
      Return (Some {| ne_title := title;
                      startsAtLocal := starts_local;
                      startsAtUtcMillis := event_ms |})
  end.

(** One iteration of the loop: [None] for [continue], the appended record,
    or the exception that ends the loop. *)
Definition event_item (zone : tzone) (baseline_ms : Z) (event_cfg : odict rule)
    (ev : RawEvent tzone) : result (option OutputEvent) :=
  let title := Str.strip (str_or_empty (ev_title ev)) in
  if negb (str_truthy title) then Return None else
  match _ensure_datetime (ev_starts_at ev) with
  | None => Return None
  | Some starts_at =>
      starts_local ← localize zone starts_at;
      event_ms ← or_raise (utc_epoch_ms starts_local);
      if event_ms <? baseline_ms then Return None else
      let days_diff := (event_ms - baseline_ms) `div` (24 * 60 * 60 * 1000) in
      let link := resolve_link ev in
      let chosen := _pick_event_cfg title event_cfg in
      Return (Some {| main := title;
                      url := if str_truthy link then link else "";
                      timeDisp := _format_time_disp starts_local;
                      timeLocalHM := _format_time_local_hm starts_local;
                      timeISO := _format_time_iso_wall starts_local;
                      isAllDay := false;
                      daysDiff := days_diff;
                      thread_id := py_or (dict_get chosen "thread_id") VNone;
                      reminder := truthy (dict_get chosen "reminder") |})
  end.

(** The [for] loop, appending to [items]. *)
Fixpoint events_loop (zone : tzone) (baseline_ms : Z) (event_cfg : odict rule)
    (raw_events : list (RawEvent tzone)) (items : list OutputEvent)
    : result (list OutputEvent) :=
  match raw_events with
  | [] => Return items
  | ev :: rest =>
      o ← event_item zone baseline_ms event_cfg ev;
      match o with
      | None => events_loop zone baseline_ms event_cfg rest items
      | Some item => events_loop zone baseline_ms event_cfg rest (items ++ [item])
      end
  end.

(** Lines 176-221: the loop and the final sort. *)
Definition events_items (zone : tzone) (baseline_ms : Z) (event_cfg : odict rule)
    (raw_events : list (RawEvent tzone)) : result (list OutputEvent) :=
  items ← events_loop zone baseline_ms event_cfg raw_events [];
  Return (sort_by_key timeISO items).

(** The handler of [/events]; [cfg] is the snapshot [_get_config] returned. *)
Definition events (cfg : Config) (group url tz : option string)
    : result (list OutputEvent) :=
  let tz_name := if opt_truthy tz then str_or_empty tz else default_tz cfg in
  meetup_url ← _determine_meetup_url cfg group url;
  zone ← match ZoneInfo tz_name with
         | Some z => Return z
         | None => Raise (HTTPException 400 (InvalidTimeZone tz_name))
         end;
  baseline_ms ← _today_1am_epoch_ms zone;
  html ← match _fetch_html meetup_url default_max_bytes with
         | Raise OtherException => Raise (HTTPException 502 FetchError)
         | r => r
         end;
  raw_events ← match teemup_parse html with
               | Some l => Return l
               | None => Raise (HTTPException 500 ParseError)
               end;
  let event_cfg := default [] (event_config cfg) in
  events_items zone baseline_ms event_cfg raw_events.

End Pipeline.

(** ** The configuration file: [load_config], [_get_config] *)

(** What [open(CONFIG_PATH)] and [yaml.safe_load] give: [FileNotFoundError],
    any other exception, or the loaded document. *)
Inductive file_outcome :=
| FileNotFound
| LoadFailed
| Loaded (doc : pyval).

(** The two [RuntimeError]s of [load_config], and the [AttributeError] of
    [cfg.setdefault] on a document that is not a mapping. *)
Inductive config_error :=
| ConfigNotFound
| ConfigLoadFailed
| NoSetdefault.

(** The entries of a [dict] in insertion order. *)
Definition pydict := list (pyval * pyval).

(** [k == name] for a key of any type and a [str]. *)
Definition is_key (name : string) (k : pyval) : bool :=
  match k with
  | VStr s => String.eqb s name
  | _ => false
  end.

(** [d.get(name)]; [None] when the key is absent. *)
Fixpoint py_get (d : pydict) (name : string) : option pyval :=
  match d with
  | [] => None
  | (k, v) :: d' => if is_key name k then Some v else py_get d' name
  end.

(** [d.setdefault(name, v)]: a key that is present keeps its value. *)
Definition setdefault (d : pydict) (name : string) (v : pyval) : pydict :=
  match py_get d name with
  | Some _ => d
  | None => d ++ [(VStr name, v)]
  end.

Definition load_config (file : file_outcome) : config_error + pydict :=
  match file with
  | FileNotFound => inl ConfigNotFound
  | LoadFailed => inl ConfigLoadFailed
  | Loaded doc =>
      match py_or doc (VDict []) with
      | VDict cfg =>
          let cfg := setdefault cfg "default_tz" (VStr "America/Los_Angeles") in
          let cfg := setdefault cfg "meetup_groups" (VDict []) in
          inr cfg
      | _ => inl NoSetdefault
      end
  end.

(** [_get_config] on the global [CONFIG]: the value returned or the
    exception raised, and [CONFIG] afterwards. *)
Definition _get_config (RELOAD_CONFIG_EACH_REQUEST : bool) (file : file_outcome)
    (CONFIG : pydict) : (config_error + pydict) * pydict :=
  if RELOAD_CONFIG_EACH_REQUEST then
    match load_config file with
    | inr cfg => (inr cfg, cfg)
    | inl e => (inl e, CONFIG)
    end
  else (inr CONFIG, CONFIG).

(** ** A fixed-offset calendar

    An instance of [DatetimeLib] on which the definitions run: the proleptic
    Gregorian calendar, zones with a constant UTC offset (in minutes), and the
    timestamp shape [YYYY-MM-DDTHH:MM:SS] with an optional [+HH:MM] or
    [-HH:MM].  The theorems below hold for every instance; this one supplies
    concrete inputs. *)

Module Fixed.

Definition days_from_civil (y m d : Z) : Z :=
  let y := if m <=? 2 then y - 1 else y in
  let era := y `div` 400 in
  let yoe := y - era * 400 in
  let mp := (m + 9) `mod` 12 in
  let doy := (153 * mp + 2) `div` 5 + d - 1 in
  let doe := yoe * 365 + yoe `div` 4 - yoe `div` 100 + doy in
  era * 146097 + doe - 719468.

Definition civil_from_days (z : Z) : Z * Z * Z :=
  let z := z + 719468 in
  let era := z `div` 146097 in
  let doe := z - era * 146097 in
  let yoe := (doe - doe `div` 1460 + doe `div` 36524 - doe `div` 146096) `div` 365 in
  let doy := doe - (365 * yoe + yoe `div` 4 - yoe `div` 100) in
  let mp := (5 * doy + 2) `div` 153 in
  let d := doy - (153 * mp + 2) `div` 5 + 1 in
  let m := if mp <? 10 then mp + 3 else mp - 9 in
  let y := yoe + era * 400 in
  (if m <=? 2 then y + 1 else y, m, d).

Definition offset_of (tz : option Z) : Z := default 0 tz.

(** Seconds since the epoch of the instant a value denotes. *)
Definition epoch_seconds (dt : datetime Z) : Z :=
  let w := wall dt in
  days_from_civil (year w) (month w) (day w) * 86400
  + hour w * 3600 + minute w * 60 + second w
  - offset_of (tzinfo dt) * 60.

Definition at_offset (secs us : Z) (zone : Z) : datetime Z :=
  let local := secs + zone * 60 in
  let days := local `div` 86400 in
  let rem := local `mod` 86400 in
  let '(y, m, d) := civil_from_days days in
  {| wall := {| year := y; month := m; day := d;
                hour := rem `div` 3600; minute := (rem `mod` 3600) `div` 60;
                second := rem `mod` 60; microsecond := us; fold := 0 |};
     tzinfo := Some zone |}.

(** [datetime] holds the years 1 to 9999. *)
Definition representable (dt : datetime Z) : option (datetime Z) :=
  if (1 <=? year (wall dt)) && (year (wall dt) <=? 9999) then Some dt else None.

(** [astimezone] goes through UTC: both steps must stay in range. *)
Definition convert (dt : datetime Z) (zone : Z) : option (datetime Z) :=
  _ ← representable (at_offset (epoch_seconds dt) (microsecond (wall dt)) 0);
  representable (at_offset (epoch_seconds dt) (microsecond (wall dt)) zone).

Definition epoch_ms (dt : datetime Z) : option Z :=
  _ ← representable (at_offset (epoch_seconds dt) (microsecond (wall dt)) 0);
  Some (epoch_seconds dt * 1000 + microsecond (wall dt) `div` 1000).

(** *** Formatting *)

Definition digit (n : Z) : ascii := ascii_of_N (48 + Z.to_N (n `mod` 10)).

Definition pad2 (n : Z) : string :=
  String (digit (n `div` 10)) (String (digit n) EmptyString).

Definition pad4 (n : Z) : string := pad2 (n `div` 100) +:+ pad2 n.

Definition weekday_name (days : Z) : string :=
  match (days + 4) `mod` 7 with
  | 0 => "Sunday" | 1 => "Monday" | 2 => "Tuesday" | 3 => "Wednesday"
  | 4 => "Thursday" | 5 => "Friday" | _ => "Saturday"
  end.

Definition month_name (m : Z) : string :=
  match m with
  | 1 => "January" | 2 => "February" | 3 => "March" | 4 => "April"
  | 5 => "May" | 6 => "June" | 7 => "July" | 8 => "August"
  | 9 => "September" | 10 => "October" | 11 => "November" | _ => "December"
  end.

Definition directive (w : wallclock) (c : ascii) : string :=
  match c with
  | "Y"%char => pad4 (year w)
  | "m"%char => pad2 (month w)
  | "d"%char => pad2 (day w)
  | "H"%char => pad2 (hour w)
  | "M"%char => pad2 (minute w)
  | "S"%char => pad2 (second w)
  | "I"%char => pad2 (if hour w `mod` 12 =? 0 then 12 else hour w `mod` 12)
  | "p"%char => if hour w <? 12 then "AM" else "PM"
  | "A"%char => weekday_name (days_from_civil (year w) (month w) (day w))
  | "B"%char => month_name (month w)
  | _ => String "%" (String c EmptyString)
  end.

Fixpoint format (w : wallclock) (fmt : string) : string :=
  match fmt with
  | String "%" (String c fmt') => directive w c +:+ format w fmt'
  | String c fmt' => String c (format w fmt')
  | EmptyString => EmptyString
  end.

Definition format_time (dt : datetime Z) (fmt : string) : string :=
  format (wall dt) fmt.

(** *** Parsing *)

Definition digit_value (c : ascii) : option Z :=
  let n := N_of_ascii c in
  if ((48 <=? n) && (n <=? 57))%N then Some (Z.of_N n - 48) else None.

Fixpoint number (n : nat) (acc : Z) (s : string) : option (Z * string) :=
  match n, s with
  | O, _ => Some (acc, s)
  | S n', String c s' =>
      v ← digit_value c; number n' (acc * 10 + v) s'
  | S _, EmptyString => None
  end.

Definition expect (c : ascii) (s : string) : option string :=
  match s with
  | String c' s' => if Ascii.eqb c c' then Some s' else None
  | EmptyString => None
  end.

Definition is_leap (y : Z) : bool :=
  (y `mod` 4 =? 0) && (negb (y `mod` 100 =? 0) || (y `mod` 400 =? 0)).

Definition days_in_month (y m : Z) : Z :=
  if m =? 2 then (if is_leap y then 29 else 28)
  else if (m =? 4) || (m =? 6) || (m =? 9) || (m =? 11) then 30 else 31.

Definition parse_offset (s : string) : option (option Z) :=
  match s with
  | EmptyString => Some None
  | String sign s1 =>
      sgn ← (if Ascii.eqb sign "+" then Some 1
             else if Ascii.eqb sign "-" then Some (-1) else None);
      '(oh, s2) ← number 2 0 s1;
      s3 ← expect ":" s2;
      '(om, s4) ← number 2 0 s3;
      match s4 with
      | EmptyString =>
          if (oh <? 24) && (om <? 60) then Some (Some (sgn * (oh * 60 + om)))
          else None
      | _ => None
      end
  end.

Definition parse_iso (s : string) : option (datetime Z) :=
  '(y, s) ← number 4 0 s;
  s ← expect "-" s;
  '(m, s) ← number 2 0 s;
  s ← expect "-" s;
  '(d, s) ← number 2 0 s;
  s ← expect "T" s;
  '(hh, s) ← number 2 0 s;
  s ← expect ":" s;
  '(mm, s) ← number 2 0 s;
  s ← expect ":" s;
  '(ss, s) ← number 2 0 s;
  off ← parse_offset s;
  if (1 <=? y) && (1 <=? m) && (m <=? 12) && (1 <=? d)
     && (d <=? days_in_month y m) && (hh <? 24) && (mm <? 60) && (ss <? 60)
  then Some {| wall := {| year := y; month := m; day := d;
                          hour := hh; minute := mm; second := ss;
                          microsecond := 0; fold := 0 |};
               tzinfo := off |}
  else None.

Definition zone_of_name (name : string) : option Z :=
  if String.eqb name "UTC" then Some 0
  else if String.eqb name "America/Phoenix" then Some (-420)
  else if String.eqb name "Asia/Tokyo" then Some 540
  else None.

(** The clock reads 2025-06-01 12:00:00 UTC. *)
Definition clock (zone : Z) : datetime Z := at_offset 1748779200 0 zone.

#[export] Instance lib : DatetimeLib := {|
  tzone := Z;
  fromisoformat := parse_iso;
  astimezone := convert;
  utc_epoch_ms := epoch_ms;
  strftime := format_time;
  ZoneInfo := zone_of_name;
  now := clock
|}.

(** A network whose pages are given by [site], each response delivering
    its body from the front, and a parser that yields [parsed] for every
    non-empty page. *)
Definition upstream (site : string -> option (list Byte.byte))
    (parsed : list (RawEvent Z)) : Upstream := {|
  response := list Byte.byte;
  urlopen u := match u with VStr a => site a | _ => None end;
  body f := f;
  read f amt := Some (if amt <? 0 then f else take (Z.to_nat amt) f);
  teemup_parse html := match html with [] => None | _ => Some parsed end
|}.

End Fixed.

(** ** Vocabulary of the statements *)

(** [needle] occurs in [hay] as a substring. *)
Definition occurs_in (needle hay : string) : Prop :=
  ∃ a b, hay = a +:+ needle +:+ b.

(** The lowercase form of [key] occurs in the lowercased [title]. *)
Definition matches_title (title key : string) : Prop :=
  occurs_in (Str.lower key) (Str.lower title).

Fixpoint all_space (s : string) : Prop :=
  match s with
  | EmptyString => True
  | String c s' => Str.is_space c = true ∧ all_space s'
  end.

Fixpoint nonspace (s : string) : Prop :=
  match s with
  | EmptyString => True
  | String c s' => Str.is_space c = false ∧ nonspace s'
  end.

(** The first and the last character of [s], if any, are not whitespace. *)
Definition trimmed (s : string) : Prop :=
  (∀ c s', s = String c s' → Str.is_space c = false)
  ∧ (∀ p c, s = p +:+ String c "" → Str.is_space c = false).

(** [rest] is empty or begins with whitespace. *)
Definition at_boundary (rest : string) : Prop :=
  match rest with
  | EmptyString => True
  | String c _ => Str.is_space c = true
  end.

(** The language of [https?://\S+]. *)
Definition url_like (m : string) : Prop :=
  ∃ run, run ≠ "" ∧ nonspace run
         ∧ (m = "http://" +:+ run ∨ m = "https://" +:+ run).

(** Some match of the pattern begins at the first character of [s]. *)
Definition match_starts (s : string) : Prop :=
  ∃ m rest, s = m +:+ rest ∧ url_like m.

(** [m] is the first match in [s]: no match begins to its left, and it runs
    up to the next whitespace or the end. *)
Definition first_match (s m : string) : Prop :=
  ∃ pre rest,
    s = pre +:+ m +:+ rest ∧ url_like m ∧ at_boundary rest
    ∧ ∀ p q, pre = p +:+ q → q ≠ "" → ¬ match_starts (q +:+ m +:+ rest).

Definition no_match (s : string) : Prop :=
  ∀ p q, s = p +:+ q → ¬ match_starts q.

(** An optional string argument that is missing or empty. *)
Definition not_provided (s : option string) : Prop := s = None ∨ s = Some "".

(** Lexicographic order of the code points, and the order of records by a
    string key. *)
Definition str_le (a b : string) : Prop := String.leb a b = true.

Definition key_le {A : Type} (key : A -> string) (a b : A) : Prop :=
  str_le (key a) (key b).

(** The record an iteration appends, if it returns and appends one. *)
Definition emitted `{DatetimeLib} (zone : tzone) (baseline_ms : Z)
    (event_cfg : odict rule) (ev : RawEvent tzone) : option OutputEvent :=
  match event_item zone baseline_ms event_cfg ev with
  | Return o => o
  | Raise _ => None
  end.

(** The iteration for [ev] ends without an exception. *)
Definition passes `{DatetimeLib} (zone : tzone) (baseline_ms : Z)
    (event_cfg : odict rule) (ev : RawEvent tzone) : Prop :=
  ∃ o, event_item zone baseline_ms event_cfg ev = Return o.

(** A response that delivers its body: [read] returns it from the front, at
    most the amount asked for, and all of it for a negative amount. *)
Definition delivers `{Upstream} (f : response) : Prop :=
  ∀ amt, read f amt
         = Some (if amt <? 0 then body f else take (Z.to_nat amt) (body f)).

(** ** Sample inputs *)

Module Demo.
Import Fixed.

Definition rule_default : rule := {[ "reminder" := VBool false ]}.
Definition rule_foo : rule :=
  {[ "thread_id" := VStr "1001"; "reminder" := VBool true ]}.
Definition rule_bar : rule := {[ "thread_id" := VStr "" ]}.

Definition event_cfg : odict rule :=
  [("default", rule_default); ("Foo", rule_foo); ("Bar", rule_bar)].

Definition phoenix : @tzone lib := -420.
Definition tokyo : @tzone lib := 540.

(** 2025-06-01 01:00 in Phoenix, the value of [_today_1am_epoch_ms phoenix]. *)
Definition baseline : Z := 1748764800000.

Definition ev_foo : RawEvent tzone := {|
  ev_title := Some "  Bar crawl with the Foo club ";
  ev_starts_at := StartStr " 2025-06-02T09:00:00Z ";
  ev_url := Some " https://meetup.test/foo ";
  ev_description := None
|}.

Definition ev_paren : RawEvent tzone := {|
  ev_title := Some "Bar night";
  ev_starts_at := StartStr "2025-06-01T19:30:00-07:00";
  ev_url := None;
  ev_description := Some "Join us (https://x.test/e/1))"
|}.

Definition ev_naive : RawEvent tzone := {|
  ev_title := Some "Picnic";
  ev_starts_at :=
    StartDatetime {| wall := WallClock 2025 6 3 12 0 0 0 0; tzinfo := None |};
  ev_url := None;
  ev_description := Some "no link here"
|}.

Definition ev_past : RawEvent tzone := {|
  ev_title := Some "Yesterday";
  ev_starts_at := StartStr "2025-05-31T18:00:00-07:00";
  ev_url := None;
  ev_description := None
|}.

Definition ev_blank_title : RawEvent tzone := {|
  ev_title := Some "   ";
  ev_starts_at := StartStr "2025-06-02T09:00:00Z";
  ev_url := None;
  ev_description := None
|}.

Definition ev_bad_date : RawEvent tzone := {|
  ev_title := Some "Broken";
  ev_starts_at := StartStr "not-a-date";
  ev_url := None;
  ev_description := None
|}.

(** The last second [datetime] holds, given in UTC: east of Greenwich its
    wall clock is in the year 10000. *)
Definition ev_last_second : RawEvent tzone := {|
  ev_title := Some "Far future";
  ev_starts_at := StartStr "9999-12-31T23:59:59+00:00";
  ev_url := None;
  ev_description := None
|}.

(** The same wall clock without an offset: west of Greenwich its instant is
    in the year 10000 of UTC. *)
Definition ev_last_second_naive : RawEvent tzone := {|
  ev_title := Some "Far future";
  ev_starts_at :=
    StartDatetime {| wall := WallClock 9999 12 31 23 59 59 0 0; tzinfo := None |};
  ev_url := None;
  ev_description := None
|}.

(** The records the loop builds for [ev_paren] and [ev_foo]. *)
Definition item_paren : OutputEvent := {|
  main := "Bar night";
  url := "https://x.test/e/1";
  timeDisp := "Sunday, June 01, 2025 at 07:30 PM";
  timeLocalHM := "07:30 PM";
  timeISO := "2025-06-01T19:30:00";
  isAllDay := false;
  daysDiff := 0;
  thread_id := VNone;
  reminder := false
|}.

Definition item_foo : OutputEvent := {|
  main := "Bar crawl with the Foo club";
  url := "https://meetup.test/foo";
  timeDisp := "Monday, June 02, 2025 at 02:00 AM";
  timeLocalHM := "02:00 AM";
  timeISO := "2025-06-02T02:00:00";
  isAllDay := false;
  daysDiff := 1;
  thread_id := VStr "1001";
  reminder := true
|}.

Definition cfg : Config := {|
  default_tz := "America/Phoenix";
  meetup_groups := Some {[ "PyData" := VStr "https://meetup.test/pydata" ]};
  event_config := Some event_cfg
|}.

Definition cfg_two_groups : Config := {|
  default_tz := "America/Phoenix";
  meetup_groups :=
    Some {[ "PyData" := VStr "https://meetup.test/pydata";
            "Empty" := VStr "";
            "Null" := VNone ]};
  event_config := None
|}.

Definition page : list Byte.byte := [Byte.x3c; Byte.x68; Byte.x31; Byte.x3e].

Definition long_page : list Byte.byte :=
  page ++ [Byte.x3c; Byte.x2f; Byte.x68; Byte.x31; Byte.x3e].

(** Every address answers with [page], but for one that answers with
    [long_page]. *)
Definition site (address : string) : option (list Byte.byte) :=
  if String.eqb address "https://meetup.test/long" then Some long_page
  else Some page.

Definition net : Upstream :=
  upstream site [ev_blank_title; ev_foo; ev_bad_date; ev_paren].

End Demo.

(** * Supporting lemmas *)

(** ** Strings *)

Lemma str_app_nil_l (s : string) : "" +:+ s = s.
Proof. reflexivity. Qed.

Lemma str_app_cons (c : ascii) (s t : string) : String c s +:+ t = String c (s +:+ t).
Proof. reflexivity. Qed.

Lemma str_app_nil_r (s : string) : s +:+ "" = s.
Proof. induction s as [|c s IH]; [done|]. by rewrite str_app_cons, IH. Qed.

Lemma str_app_assoc (a b c : string) : (a +:+ b) +:+ c = a +:+ (b +:+ c).
Proof. induction a as [|x a IH]; [done|]. by rewrite !str_app_cons, IH. Qed.

Lemma prefix_app (n b : string) : String.prefix n (n +:+ b) = true.
Proof.
  induction n as [|c n IH]; [by destruct b|].
  rewrite str_app_cons. simpl. destruct (ascii_dec c c); [done|congruence].
Qed.

Lemma prefix_inv (n h : string) :
  String.prefix n h = true -> exists b, h = n +:+ b.
Proof.
  revert h. induction n as [|c n IH]; intros h Hp.
  - by exists h.
  - destruct h as [|d h]; [done|]. simpl in Hp.
    destruct (ascii_dec c d) as [->|]; [|done].
    destruct (IH _ Hp) as [b ->]. by exists b.
Qed.

Lemma contains_eq (n h : string) :
  Str.contains n h =
  if String.prefix n h then true
  else match h with "" => false | String _ h' => Str.contains n h' end.
Proof. by destruct h. Qed.

Lemma contains_occurs (n h : string) :
  Str.contains n h = true <-> occurs_in n h.
Proof.
  split.
  - induction h as [|c h IH]; rewrite contains_eq;
      destruct (String.prefix n _) eqn:Hp; try done.
    + intros _. apply prefix_inv in Hp as [b Hb]. by exists "", b.
    + intros _. apply prefix_inv in Hp as [b Hb]. by exists "", b.
    + intros Hc. destruct (IH Hc) as (a & b & ->). by exists (String c a), b.
  - intros (a & b & ->). induction a as [|c a IH]; rewrite contains_eq.
    + by rewrite str_app_nil_l, prefix_app.
    + rewrite str_app_cons, IH. by destruct (String.prefix _ _).
Qed.

Lemma str_app_inj_last (p q : string) (c d : ascii) :
  p +:+ String c "" = q +:+ String d "" -> p = q ∧ c = d.
Proof.
  revert q. induction p as [|x p IH]; intros [|y q]; rewrite ?str_app_cons, ?str_app_nil_l.
  - by intros [= ->].
  - intros [= -> Hq]. by destruct q.
  - intros [= -> Hp]. by destruct p.
  - intros [= -> Hpq]. by destruct (IH _ Hpq) as [-> ->].
Qed.

Lemma rstrip_eq (c : ascii) (s : string) :
  Str.rstrip (String c s) =
  match Str.rstrip s with
  | "" => if Str.is_space c then "" else String c ""
  | r => String c r
  end.
Proof. done. Qed.

Lemma lstrip_split (s : string) :
  ∃ l, s = l +:+ Str.lstrip s ∧ all_space l
       ∧ ∀ c s', Str.lstrip s = String c s' → Str.is_space c = false.
Proof.
  induction s as [|c s (l & Hs & Hl & Hfirst)]; [by exists ""|].
  simpl. destruct (Str.is_space c) eqn:Hc.
  - exists (String c l). rewrite str_app_cons, <- Hs. done.
  - exists "". split_and!; try done. by intros ? ? [= <- _].
Qed.

Lemma rstrip_split (s : string) :
  ∃ r, s = Str.rstrip s +:+ r ∧ all_space r
       ∧ ∀ p c, Str.rstrip s = p +:+ String c "" → Str.is_space c = false.
Proof.
  induction s as [|c s (r & Hs & Hr & Hlast)].
  - exists "". split_and!; try done. by intros [|] ?.
  - rewrite rstrip_eq. destruct (Str.rstrip s) as [|c' t] eqn:E.
    + rewrite str_app_nil_l in Hs. subst r.
      destruct (Str.is_space c) eqn:Hc.
      * exists (String c s). split_and!; try done.
      * exists s. split_and!; try done.
        intros p d Hp. change (String c "") with ("" +:+ String c "") in Hp.
        by apply str_app_inj_last in Hp as [_ <-].
    + exists r. rewrite str_app_cons, <- Hs. split_and!; try done.
      intros [|x p] d.
      * rewrite str_app_nil_l. by intros [= _ ?].
      * rewrite str_app_cons. intros [= -> Hp]. by apply (Hlast p).
Qed.

Lemma rstrip_keeps_first (s : string) (c : ascii) (s' : string) :
  Str.rstrip s = String c s' -> ∃ t, s = String c t.
Proof.
  destruct s as [|d s]; [done|]. rewrite rstrip_eq.
  destruct (Str.rstrip s); [destruct (Str.is_space d)|]; intros [= <- _]; eauto.
Qed.

Lemma strip_split (s : string) :
  ∃ l r, s = l +:+ Str.strip s +:+ r ∧ all_space l ∧ all_space r
         ∧ trimmed (Str.strip s).
Proof.
  unfold Str.strip.
  destruct (lstrip_split s) as (l & Hs & Hl & Hfirst).
  destruct (rstrip_split (Str.lstrip s)) as (r & Hs' & Hr & Hlast).
  exists l, r. split_and!; try done.
  - by rewrite <- Hs'.
  - split; [|done]. intros c s' Hc.
    apply rstrip_keeps_first in Hc as [t Ht]. by apply (Hfirst c t).
Qed.

Lemma lstrip_all_space (s : string) : all_space s -> Str.lstrip s = "".
Proof.
  induction s as [|c s IH]; [done|]. intros [Hc Hs]. simpl. rewrite Hc. auto.
Qed.

Lemma strip_all_space (s : string) : all_space s -> Str.strip s = "".
Proof. intros Hs. unfold Str.strip. by rewrite lstrip_all_space. Qed.

Lemma all_space_app (a b : string) : all_space a -> all_space b -> all_space (a +:+ b).
Proof.
  intros Ha Hb. induction a as [|c a IH]; [done|].
  destruct Ha as [Hc Ha]. rewrite str_app_cons. split; auto.
Qed.

Lemma strip_empty_all_space (s : string) : Str.strip s = "" -> all_space s.
Proof.
  intros He. destruct (strip_split s) as (l & r & Hs & Hl & Hr & _).
  rewrite He, str_app_nil_l in Hs. rewrite Hs. by apply all_space_app.
Qed.

Lemma ends_with_char_eq (ch c : ascii) (s : string) :
  Str.ends_with_char ch (String c s) =
  match s with "" => Ascii.eqb c ch | _ => Str.ends_with_char ch s end.
Proof. done. Qed.

Lemma ends_with_char_app (ch : ascii) (p : string) :
  Str.ends_with_char ch (p +:+ String ch "") = true.
Proof.
  induction p as [|c p IH]; [simpl; apply Ascii.eqb_refl|].
  rewrite str_app_cons, ends_with_char_eq.
  destruct (p +:+ String ch "") eqn:E; [by destruct p|done].
Qed.

Lemma ends_with_char_inv (ch : ascii) (s : string) :
  Str.ends_with_char ch s = true -> ∃ p, s = p +:+ String ch "".
Proof.
  induction s as [|c s IH]; [done|]. rewrite ends_with_char_eq.
  destruct s as [|d s].
  - intros ->%Ascii.eqb_eq. by exists "".
  - intros [p ->]%IH. by exists (String c p).
Qed.

Lemma drop_last_app (ch : ascii) (p : string) :
  Str.drop_last (p +:+ String ch "") = p.
Proof.
  induction p as [|c p IH]; [done|].
  rewrite str_app_cons. simpl.
  destruct (p +:+ String ch "") eqn:E; [by destruct p|]. by rewrite IH.
Qed.

(** ** The pattern [https?://\S+] *)

Lemma take_nonspace_app (run rest : string) :
  nonspace run -> at_boundary rest ->
  Str.take_nonspace (run +:+ rest) = run.
Proof.
  intros Hrun Hrest. induction run as [|c run IH].
  - rewrite str_app_nil_l. destruct rest as [|c rest]; [done|].
    simpl in *. by rewrite Hrest.
  - destruct Hrun as [Hc Hrun]. rewrite str_app_cons. simpl.
    rewrite Hc. by rewrite IH.
Qed.

Lemma take_nonspace_split (s : string) :
  ∃ rest, s = Str.take_nonspace s +:+ rest
          ∧ nonspace (Str.take_nonspace s) ∧ at_boundary rest.
Proof.
  induction s as [|c s (rest & Hs & Hn & Hb)].
  - by exists "".
  - simpl. destruct (Str.is_space c) eqn:Hc.
    + by exists (String c s).
    + exists rest. rewrite str_app_cons, <- Hs. done.
Qed.

Lemma take_nonspace_nonempty (c : ascii) (run rest : string) :
  nonspace (String c run) -> Str.take_nonspace (String c run +:+ rest) ≠ "".
Proof. intros [Hc _]. rewrite str_app_cons. simpl. by rewrite Hc. Qed.

Lemma drop_length_app (a b : string) : Str.drop (String.length a) (a +:+ b) = b.
Proof. induction a as [|c a IH]; [by destruct b|]. by rewrite str_app_cons. Qed.

Lemma re_tail_Some (scheme s m : string) :
  re_tail scheme s = Some m ->
  ∃ run rest, m = scheme +:+ run ∧ s = m +:+ rest
              ∧ run ≠ "" ∧ nonspace run ∧ at_boundary rest.
Proof.
  unfold re_tail. destruct (String.prefix scheme s) eqn:Hp; [|done].
  apply prefix_inv in Hp as [b ->]. rewrite drop_length_app.
  destruct (take_nonspace_split b) as (rest & Hb & Hn & Hr).
  destruct (Str.take_nonspace b) as [|c run] eqn:E; [done|].
  intros [= <-]. exists (String c run), rest.
  by rewrite str_app_assoc, <- Hb.
Qed.

Lemma re_tail_app (scheme run rest : string) :
  run ≠ "" -> nonspace run -> at_boundary rest ->
  re_tail scheme ((scheme +:+ run) +:+ rest) = Some (scheme +:+ run).
Proof.
  intros Hne Hn Hr. unfold re_tail.
  rewrite str_app_assoc, prefix_app, drop_length_app, take_nonspace_app by done.
  by destruct run.
Qed.

Lemma re_tail_not_None (scheme run rest : string) :
  run ≠ "" -> nonspace run ->
  re_tail scheme ((scheme +:+ run) +:+ rest) ≠ None.
Proof.
  intros Hne Hn. unfold re_tail.
  rewrite str_app_assoc, prefix_app, drop_length_app.
  destruct run as [|c run]; [done|].
  pose proof (take_nonspace_nonempty c run rest Hn) as Ht.
  by destruct (Str.take_nonspace _).
Qed.

Lemma re_tail_https_on_http (x : string) : re_tail "https://" ("http://" +:+ x) = None.
Proof. reflexivity. Qed.

Lemma re_match_at_Some (s m : string) :
  re_match_at s = Some m ->
  url_like m ∧ ∃ rest, s = m +:+ rest ∧ at_boundary rest.
Proof.
  unfold re_match_at.
  destruct (re_tail "https://" s) as [m'|] eqn:E1.
  - intros [= <-]. apply re_tail_Some in E1 as (run & rest & -> & -> & ? & ? & ?).
    split; [|by exists rest]. exists run. auto.
  - intros E2. apply re_tail_Some in E2 as (run & rest & -> & -> & ? & ? & ?).
    split; [|by exists rest]. exists run. auto.
Qed.

Lemma re_match_at_app (m rest : string) :
  url_like m -> at_boundary rest -> re_match_at (m +:+ rest) = Some m.
Proof.
  intros (run & Hne & Hn & [-> | ->]) Hr; unfold re_match_at.
  - rewrite str_app_assoc, re_tail_https_on_http, <- str_app_assoc.
    by apply re_tail_app.
  - by rewrite re_tail_app.
Qed.

Lemma re_match_at_None (s : string) : re_match_at s = None -> ¬ match_starts s.
Proof.
  unfold re_match_at. intros Hnone (m & rest & -> & run & Hne & Hn & [-> | ->]).
  - rewrite str_app_assoc, re_tail_https_on_http, <- str_app_assoc in Hnone.
    by apply (re_tail_not_None "http://" run rest).
  - destruct (re_tail _ _) eqn:E; [done|].
    by apply (re_tail_not_None "https://" run rest).
Qed.

Lemma re_search_eq (s : string) :
  re_search s =
  match re_match_at s with
  | Some m => Some m
  | None => match s with "" => None | String _ s' => re_search s' end
  end.
Proof. by destruct s. Qed.

Lemma str_app_eq_nil (a b : string) : a +:+ b = "" -> a = "" ∧ b = "".
Proof. by destruct a. Qed.

Lemma re_search_Some (s m : string) : re_search s = Some m -> first_match s m.
Proof.
  induction s as [|c s IH]; rewrite re_search_eq;
    destruct (re_match_at _) as [m'|] eqn:E; try done.
  - intros [= <-]. apply re_match_at_Some in E as (Hm & rest & Hs & Hr).
    exists "", rest. split_and!; try done.
    intros p q Hpq. symmetry in Hpq. by apply str_app_eq_nil in Hpq as [_ ->].
  - intros Hs. destruct (IH Hs) as (pre & rest & -> & Hm & Hr & Hleft).
    exists (String c pre), rest. split_and!; try done.
    intros p q Hpq Hq. destruct p as [|c' p].
    + rewrite str_app_nil_l in Hpq. subst q. rewrite str_app_cons.
      by apply re_match_at_None.
    + rewrite str_app_cons in Hpq. injection Hpq as -> ->. by apply (Hleft p q).
Qed.

Lemma re_search_None (s : string) : re_search s = None -> no_match s.
Proof.
  induction s as [|c s IH]; rewrite re_search_eq;
    destruct (re_match_at _) eqn:E; try done.
  - intros _ p q Hpq. symmetry in Hpq. apply str_app_eq_nil in Hpq as [_ ->].
    by apply re_match_at_None.
  - intros Hs p q Hpq. destruct p as [|c' p].
    + rewrite str_app_nil_l in Hpq. subst q. by apply re_match_at_None.
    + rewrite str_app_cons in Hpq. injection Hpq as -> ->. by apply (IH Hs p).
Qed.

Lemma first_match_re_search (s m : string) : first_match s m -> re_search s = Some m.
Proof.
  intros (pre & rest & -> & Hm & Hr & Hleft).
  induction pre as [|c pre IH]; rewrite re_search_eq.
  - rewrite str_app_nil_l. by rewrite re_match_at_app.
  - destruct (re_match_at _) as [m'|] eqn:E.
    + exfalso. apply (Hleft "" (String c pre)); [done..|].
      apply re_match_at_Some in E as (Hm' & rest' & Hs & _).
      by exists m', rest'.
    + rewrite str_app_cons. apply IH. intros p q -> Hq.
      by apply (Hleft (String c p) q).
Qed.

Lemma no_match_re_search (s : string) : no_match s -> re_search s = None.
Proof.
  intros Hno. destruct (re_search s) as [m|] eqn:E; [|done].
  apply re_search_Some in E as (pre & rest & -> & Hm & _).
  exfalso. apply (Hno pre (m +:+ rest)); [done|]. by exists m, rest.
Qed.

(** [rstrip_char] *)

Lemma rstrip_char_eq (ch c : ascii) (s : string) :
  Str.rstrip_char ch (String c s) =
  match Str.rstrip_char ch s with
  | "" => if Ascii.eqb c ch then "" else String c ""
  | r => String c r
  end.
Proof. done. Qed.

Lemma rstrip_char_split (ch : ascii) (s : string) :
  ∃ n, s = Str.rstrip_char ch s +:+ Str.replicate n ch.
Proof.
  induction s as [|c s [n IH]]; [by exists 0%nat|].
  rewrite rstrip_char_eq. destruct (Str.rstrip_char ch s) as [|c' r] eqn:E.
  - destruct (Ascii.eqb_spec c ch) as [->|].
    + exists (S n). rewrite str_app_nil_l in *. simpl. by rewrite <- IH.
    + exists n. rewrite str_app_cons. by rewrite <- IH.
  - exists n. rewrite str_app_cons. by rewrite <- IH.
Qed.

Lemma rstrip_char_no_trailing (ch : ascii) (s : string) :
  Str.ends_with_char ch (Str.rstrip_char ch s) = false.
Proof.
  induction s as [|c s IH]; [done|].
  rewrite rstrip_char_eq. destruct (Str.rstrip_char ch s) as [|c' r] eqn:E.
  - destruct (Ascii.eqb_spec c ch); [done|]. simpl.
    by apply Ascii.eqb_neq.
  - done.
Qed.

(** ** The rule matcher *)

Lemma rule_or_empty_id (r : rule) : rule_or_empty r = r.
Proof.
  unfold rule_or_empty. destruct (size r =? 0)%nat eqn:E; [|done].
  apply Nat.eqb_eq in E. symmetry. by apply map_size_empty_inv.
Qed.

Lemma od_get_None {V} (d : odict V) (k : string) :
  k ∉ od_keys d -> od_get d k = None.
Proof.
  induction d as [|[k' v] d IH]; [done|]. intros Hk. simpl.
  unfold od_keys in Hk. rewrite fmap_cons in Hk. cbn [fst] in Hk.
  apply not_elem_of_cons in Hk as [Hne Hk].
  destruct (String.eqb_spec k' k); [congruence|]. by apply IH.
Qed.

Lemma od_get_middle {V} (pre post : odict V) (k : string) (v : V) :
  k ∉ od_keys pre -> od_get (pre ++ (k, v) :: post) k = Some v.
Proof.
  induction pre as [|[k' v'] pre IH]; intros Hk; simpl.
  - by rewrite String.eqb_refl.
  - unfold od_keys in Hk. rewrite fmap_cons in Hk. cbn [fst] in Hk.
    apply not_elem_of_cons in Hk as [Hne Hk].
    destruct (String.eqb_spec k' k); [congruence|]. by apply IH.
Qed.

Lemma pick_loop_no_match (title_lc : string) (cfg : odict rule)
    (keys : list string) (chosen : rule) :
  (forall k, k ∈ keys -> k ≠ "default" ->
             Str.contains (Str.lower k) title_lc = false) ->
  pick_loop title_lc cfg keys chosen = chosen.
Proof.
  induction keys as [|k keys IH]; intros Hno; [done|]. simpl.
  destruct (String.eqb_spec k "default") as [->|Hk].
  - apply IH. intros k' Hin. apply Hno. by right.
  - rewrite (Hno k) by (done || by left).
    apply IH. intros k' Hin. apply Hno. by right.
Qed.

Lemma pick_loop_first (title_lc : string) (cfg : odict rule)
    (pre post : list string) (k : string) (chosen : rule) :
  (forall k', k' ∈ pre -> k' ≠ "default" ->
              Str.contains (Str.lower k') title_lc = false) ->
  k ≠ "default" ->
  Str.contains (Str.lower k) title_lc = true ->
  pick_loop title_lc cfg (pre ++ k :: post) chosen = default chosen (od_get cfg k).
Proof.
  intros Hpre Hk Hm. induction pre as [|k' pre IH]; simpl.
  - destruct (String.eqb_spec k "default"); [done|]. by rewrite Hm.
  - destruct (String.eqb_spec k' "default") as [->|Hk'].
    + apply IH. intros k'' Hin. apply Hpre. by right.
    + rewrite (Hpre k') by (done || by left).
      apply IH. intros k'' Hin. apply Hpre. by right.
Qed.

Lemma contains_false (n h : string) :
  ¬ occurs_in n h -> Str.contains n h = false.
Proof.
  intros Hn. destruct (Str.contains n h) eqn:E; [|done].
  by apply contains_occurs in E.
Qed.

Lemma pick_no_match (title : string) (cfg : odict rule) :
  (forall k, k ∈ od_keys cfg -> k ≠ "default" -> ¬ matches_title title k) ->
  _pick_event_cfg title cfg = default ∅ (od_get cfg "default").
Proof.
  intros Hno. unfold _pick_event_cfg. rewrite rule_or_empty_id.
  apply pick_loop_no_match. intros k Hin Hk.
  apply contains_false. by apply Hno.
Qed.

Lemma pick_first_match (title : string) (pre post : odict rule)
    (k : string) (r : rule) :
  NoDup (od_keys (pre ++ (k, r) :: post)) ->
  k ≠ "default" -> matches_title title k ->
  (forall k', k' ∈ od_keys pre -> k' ≠ "default" -> ¬ matches_title title k') ->
  _pick_event_cfg title (pre ++ (k, r) :: post) = r.
Proof.
  intros Hnd Hk Hm Hpre. unfold _pick_event_cfg, od_keys.
  rewrite fmap_app, fmap_cons. cbn [fst].
  rewrite pick_loop_first.
  - rewrite od_get_middle; [done|].
    unfold od_keys in Hnd. rewrite fmap_app, fmap_cons in Hnd.
    apply NoDup_app in Hnd as (_ & Hdis & _).
    intros Hin. apply (Hdis _ Hin). by left.
  - intros k' Hin Hk'. apply contains_false. by apply Hpre.
  - done.
  - by apply contains_occurs.
Qed.

(** ** Sorting *)

Lemma str_compare_refl (s : string) : String.compare s s = Eq.
Proof.
  induction s as [|c s IH]; [done|]. simpl.
  unfold Ascii.compare. by rewrite N.compare_refl.
Qed.

Lemma str_ltb_irrefl (s : string) : String.ltb s s = false.
Proof. unfold String.ltb. by rewrite str_compare_refl. Qed.

Lemma str_ltb_false_le (a b : string) : String.ltb a b = false -> str_le b a.
Proof.
  unfold String.ltb, str_le, String.leb. rewrite (String.compare_antisym b a).
  by destruct (String.compare a b).
Qed.

Lemma str_ltb_le (a b : string) : String.ltb a b = true -> str_le a b.
Proof.
  unfold String.ltb, str_le, String.leb. by destruct (String.compare a b).
Qed.

Lemma str_le_trans (a b c : string) : str_le a b -> str_le b c -> str_le a c.
Proof.
  unfold str_le, String.leb. revert b c.
  induction a as [|x a IH]; intros [|y b] [|z c]; simpl; try done.
  unfold Ascii.compare.
  destruct (N.compare_spec (N_of_ascii x) (N_of_ascii y)) as [Exy|Lxy|Gxy];
    destruct (N.compare_spec (N_of_ascii y) (N_of_ascii z)) as [Eyz|Lyz|Gyz];
    try done; intros Hab Hbc.
  - rewrite Exy, Eyz, N.compare_refl. by apply (IH b c).
  - rewrite Exy. by apply N.compare_lt_iff in Lyz as ->.
  - rewrite <- Eyz. by apply N.compare_lt_iff in Lxy as ->.
  - assert (N_of_ascii x < N_of_ascii z)%N as Hlt by lia.
    by apply N.compare_lt_iff in Hlt as ->.
Qed.

Section SortFacts.
Context {A : Type} (key : A -> string).

Lemma insert_by_key_perm (x : A) (l : list A) : insert_by_key key x l ≡ₚ x :: l.
Proof.
  induction l as [|y l IH]; [done|]. simpl.
  destruct (String.ltb (key y) (key x)); [|done].
  rewrite IH. apply Permutation_swap.
Qed.

Lemma sort_by_key_perm (l : list A) : sort_by_key key l ≡ₚ l.
Proof.
  induction l as [|x l IH]; [done|]. simpl.
  by rewrite insert_by_key_perm, IH.
Qed.

Lemma insert_by_key_hd (x y : A) (l : list A) :
  key_le key y x -> HdRel (key_le key) y l -> HdRel (key_le key) y (insert_by_key key x l).
Proof.
  intros Hyx Hhd. destruct l as [|z l]; simpl.
  - by constructor.
  - destruct (String.ltb (key z) (key x)); constructor; [|done].
    by inversion Hhd.
Qed.

Lemma insert_by_key_sorted (x : A) (l : list A) :
  Sorted (key_le key) l -> Sorted (key_le key) (insert_by_key key x l).
Proof.
  induction 1 as [|y l Hs IH Hhd]; simpl.
  - by repeat constructor.
  - destruct (String.ltb (key y) (key x)) eqn:E.
    + constructor; [done|]. apply insert_by_key_hd; [|done].
      by apply str_ltb_le.
    + constructor; [by constructor|]. constructor.
      by apply str_ltb_false_le.
Qed.

Lemma sort_by_key_sorted (l : list A) : Sorted (key_le key) (sort_by_key key l).
Proof.
  induction l as [|x l IH]; simpl; [constructor|].
  by apply insert_by_key_sorted.
Qed.

Lemma sort_by_key_strongly_sorted (l : list A) :
  StronglySorted (key_le key) (sort_by_key key l).
Proof.
  apply Sorted_StronglySorted; [|apply sort_by_key_sorted].
  intros a b c. apply str_le_trans.
Qed.

Lemma insert_by_key_filter (k : string) (x : A) (l : list A) :
  filter (λ e, key e = k) (insert_by_key key x l)
  = filter (λ e, key e = k) (x :: l).
Proof.
  induction l as [|y l IH]; [done|]. simpl.
  destruct (String.ltb (key y) (key x)) eqn:E; [|done].
  rewrite filter_cons, IH, !filter_cons.
  destruct (decide (key y = k)) as [Hy|Hy]; [|done].
  destruct (decide (key x = k)) as [Hx|Hx]; [|done].
  rewrite Hx, Hy, str_ltb_irrefl in E. done.
Qed.

Lemma sort_by_key_stable (k : string) (l : list A) :
  filter (λ e, key e = k) (sort_by_key key l) = filter (λ e, key e = k) l.
Proof.
  induction l as [|x l IH]; [done|]. simpl.
  by rewrite insert_by_key_filter, !filter_cons, IH.
Qed.

End SortFacts.

(** ** The loop *)

Section PipelineFacts.
Context `{DatetimeLib}.

Lemma emitted_Return (zone : tzone) (baseline_ms : Z) (event_cfg : odict rule)
    (ev : RawEvent tzone) (o : option OutputEvent) :
  event_item zone baseline_ms event_cfg ev = Return o →
  emitted zone baseline_ms event_cfg ev = o.
Proof. unfold emitted. by intros ->. Qed.

Lemma events_loop_Return_inv (zone : tzone) (baseline_ms : Z) (event_cfg : odict rule)
    (raw_events : list (RawEvent tzone)) (items out : list OutputEvent) :
  events_loop zone baseline_ms event_cfg raw_events items = Return out →
  (∀ ev, ev ∈ raw_events → passes zone baseline_ms event_cfg ev)
  ∧ out = items ++ omap (emitted zone baseline_ms event_cfg) raw_events.
Proof.
  revert items. induction raw_events as [|ev rest IH]; intros items; simpl.
  - intros [= <-]. split; [|by rewrite app_nil_r].
    intros ev Hev. by apply elem_of_nil in Hev.
  - unfold emitted.
    destruct (event_item zone baseline_ms event_cfg ev) as [[item|]|e] eqn:E;
      cbn [mbind result_bind]; [| |done].
    + intros (Hrest & ->)%IH. split; [|by rewrite <- app_assoc].
      intros ev' [->|Hev']%elem_of_cons; [by eexists|by apply Hrest].
    + intros (Hrest & ->)%IH. split; [|done].
      intros ev' [->|Hev']%elem_of_cons; [by eexists|by apply Hrest].
Qed.

Lemma events_loop_Return (zone : tzone) (baseline_ms : Z) (event_cfg : odict rule)
    (raw_events : list (RawEvent tzone)) (items : list OutputEvent) :
  (∀ ev, ev ∈ raw_events → passes zone baseline_ms event_cfg ev) →
  events_loop zone baseline_ms event_cfg raw_events items
  = Return (items ++ omap (emitted zone baseline_ms event_cfg) raw_events).
Proof.
  revert items. induction raw_events as [|ev rest IH]; intros items Hpass; simpl.
  - by rewrite app_nil_r.
  - destruct (Hpass ev) as [o Ho]; [by left|]. unfold emitted at 1. rewrite Ho.
    cbn [mbind result_bind].
    assert (∀ ev', ev' ∈ rest → passes zone baseline_ms event_cfg ev') as Hrest.
    { intros ev' Hev'. apply Hpass. by right. }
    destruct o as [item|]; rewrite IH by done; [|done].
    by rewrite <- app_assoc.
Qed.

Lemma events_loop_Raise (zone : tzone) (baseline_ms : Z) (event_cfg : odict rule)
    (pre post : list (RawEvent tzone)) (ev : RawEvent tzone)
    (items : list OutputEvent) (e : exn) :
  (∀ ev', ev' ∈ pre → passes zone baseline_ms event_cfg ev') →
  event_item zone baseline_ms event_cfg ev = Raise e →
  events_loop zone baseline_ms event_cfg (pre ++ ev :: post) items = Raise e.
Proof.
  revert items. induction pre as [|ev' pre IH]; intros items Hpass Hraise; simpl.
  - by rewrite Hraise.
  - destruct (Hpass ev') as [o Ho]; [by left|]. rewrite Ho.
    cbn [mbind result_bind].
    assert (∀ ev'', ev'' ∈ pre → passes zone baseline_ms event_cfg ev'') as Hrest.
    { intros ev'' Hev''. apply Hpass. by right. }
    destruct o as [item|]; by apply IH.
Qed.

Lemma events_loop_Raise_inv (zone : tzone) (baseline_ms : Z) (event_cfg : odict rule)
    (raw_events : list (RawEvent tzone)) (items : list OutputEvent) (e : exn) :
  events_loop zone baseline_ms event_cfg raw_events items = Raise e →
  ∃ ev, ev ∈ raw_events ∧ event_item zone baseline_ms event_cfg ev = Raise e.
Proof.
  revert items. induction raw_events as [|ev rest IH]; intros items; simpl; [done|].
  destruct (event_item zone baseline_ms event_cfg ev) as [[item|]|e'] eqn:E;
    cbn [mbind result_bind].
  - intros (ev' & Hev' & Hraise)%IH. exists ev'. split; [by right|done].
  - intros (ev' & Hev' & Hraise)%IH. exists ev'. split; [by right|done].
  - intros [= <-]. exists ev. split; [by left|done].
Qed.

Lemma events_loop_skip (zone : tzone) (baseline_ms : Z) (event_cfg : odict rule)
    (pre post : list (RawEvent tzone)) (ev : RawEvent tzone)
    (items : list OutputEvent) :
  event_item zone baseline_ms event_cfg ev = Return None →
  events_loop zone baseline_ms event_cfg (pre ++ ev :: post) items
  = events_loop zone baseline_ms event_cfg (pre ++ post) items.
Proof.
  intros Hnone. revert items. induction pre as [|ev' pre IH]; intros items; simpl.
  - by rewrite Hnone.
  - destruct (event_item zone baseline_ms event_cfg ev') as [[item|]|e];
      cbn [mbind result_bind]; [apply IH..|done].
Qed.

Lemma events_items_Return_inv (zone : tzone) (baseline_ms : Z)
    (event_cfg : odict rule) (raw_events : list (RawEvent tzone))
    (out : list OutputEvent) :
  events_items zone baseline_ms event_cfg raw_events = Return out →
  (∀ ev, ev ∈ raw_events → passes zone baseline_ms event_cfg ev)
  ∧ events_loop zone baseline_ms event_cfg raw_events []
    = Return (omap (emitted zone baseline_ms event_cfg) raw_events)
  ∧ out = sort_by_key timeISO (omap (emitted zone baseline_ms event_cfg) raw_events).
Proof.
  unfold events_items.
  destruct (events_loop zone baseline_ms event_cfg raw_events []) as [items|e] eqn:E;
    cbn [mbind result_bind]; [|done].
  intros [= <-]. apply events_loop_Return_inv in E as (Hpass & ->). done.
Qed.

Lemma events_items_Return (zone : tzone) (baseline_ms : Z)
    (event_cfg : odict rule) (raw_events : list (RawEvent tzone)) :
  (∀ ev, ev ∈ raw_events → passes zone baseline_ms event_cfg ev) →
  events_items zone baseline_ms event_cfg raw_events
  = Return (sort_by_key timeISO (omap (emitted zone baseline_ms event_cfg) raw_events)).
Proof.
  intros Hpass. unfold events_items. by rewrite events_loop_Return.
Qed.

Lemma events_items_Raise (zone : tzone) (baseline_ms : Z) (event_cfg : odict rule)
    (pre post : list (RawEvent tzone)) (ev : RawEvent tzone) (e : exn) :
  (∀ ev', ev' ∈ pre → passes zone baseline_ms event_cfg ev') →
  event_item zone baseline_ms event_cfg ev = Raise e →
  events_items zone baseline_ms event_cfg (pre ++ ev :: post) = Raise e.
Proof.
  intros Hpass Hraise. unfold events_items.
  by rewrite (events_loop_Raise _ _ _ pre post ev [] e).
Qed.

Lemma events_items_Raise_inv (zone : tzone) (baseline_ms : Z)
    (event_cfg : odict rule) (raw_events : list (RawEvent tzone)) (e : exn) :
  events_items zone baseline_ms event_cfg raw_events = Raise e →
  ∃ ev, ev ∈ raw_events ∧ event_item zone baseline_ms event_cfg ev = Raise e.
Proof.
  unfold events_items.
  destruct (events_loop zone baseline_ms event_cfg raw_events []) as [items|e']
    eqn:E; cbn [mbind result_bind]; [done|].
  intros [= <-]. by apply events_loop_Raise_inv in E.
Qed.

Lemma elem_of_emitted (zone : tzone) (baseline_ms : Z) (event_cfg : odict rule)
    (raw_events : list (RawEvent tzone)) (item : OutputEvent) :
  (∀ ev, ev ∈ raw_events → passes zone baseline_ms event_cfg ev) →
  item ∈ omap (emitted zone baseline_ms event_cfg) raw_events
  ↔ ∃ ev, ev ∈ raw_events
          ∧ event_item zone baseline_ms event_cfg ev = Return (Some item).
Proof.
  intros Hpass. rewrite list_elem_of_omap. split.
  - intros (ev & Hev & Hitem). exists ev. split; [done|].
    destruct (Hpass ev Hev) as [o Ho]. rewrite (emitted_Return _ _ _ _ _ Ho) in Hitem.
    by rewrite Ho, Hitem.
  - intros (ev & Hev & Hitem). exists ev. split; [done|].
    by apply emitted_Return.
Qed.

Lemma elem_of_events_items (zone : tzone) (baseline_ms : Z)
    (event_cfg : odict rule) (raw_events : list (RawEvent tzone))
    (out : list OutputEvent) (item : OutputEvent) :
  events_items zone baseline_ms event_cfg raw_events = Return out →
  item ∈ out
  ↔ ∃ ev, ev ∈ raw_events
          ∧ event_item zone baseline_ms event_cfg ev = Return (Some item).
Proof.
  intros (Hpass & _ & ->)%events_items_Return_inv.
  rewrite sort_by_key_perm. by apply elem_of_emitted.
Qed.

Lemma events_items_skip (zone : tzone) (baseline_ms : Z) (event_cfg : odict rule)
    (pre post : list (RawEvent tzone)) (ev : RawEvent tzone) :
  event_item zone baseline_ms event_cfg ev = Return None ->
  events_items zone baseline_ms event_cfg (pre ++ ev :: post)
  = events_items zone baseline_ms event_cfg (pre ++ post).
Proof.
  intros Hnone. unfold events_items. by rewrite events_loop_skip.
Qed.

Lemma event_item_normalize (zone : tzone) (baseline_ms : Z)
    (event_cfg : odict rule) (ev : RawEvent tzone) :
  event_item zone baseline_ms event_cfg ev
  = match normalize zone ev with
    | Raise e => Raise e
    | Return None => Return None
    | Return (Some n) =>
        if startsAtUtcMillis n <? baseline_ms then Return None
        else Return (Some {|
          main := ne_title n;
          url := resolve_link ev;
          timeDisp := _format_time_disp (startsAtLocal n);
          timeLocalHM := _format_time_local_hm (startsAtLocal n);
          timeISO := _format_time_iso_wall (startsAtLocal n);
          isAllDay := false;
          daysDiff := (startsAtUtcMillis n - baseline_ms) `div` 86400000;
          thread_id := py_or (dict_get (_pick_event_cfg (ne_title n) event_cfg)
                                       "thread_id") VNone;
          reminder := truthy (dict_get (_pick_event_cfg (ne_title n) event_cfg)
                                       "reminder") |})
    end.
Proof.
  unfold event_item, normalize.
  destruct (negb (str_truthy _)); [done|].
  destruct (_ensure_datetime _) as [d|]; [|done].
  destruct (localize zone d) as [dl|e]; cbn [mbind result_bind]; [|done].
  destruct (utc_epoch_ms dl) as [ms|]; cbn [or_raise mbind result_bind]; [|done].
  cbn [startsAtUtcMillis ne_title startsAtLocal].
  destruct (_ <? _); [done|]. do 3 f_equal.
  unfold str_truthy. by destruct (String.eqb_spec (resolve_link ev) "") as [->|].
Qed.

(** What an iteration that appends has seen. *)
Lemma event_item_Some (zone : tzone) (baseline_ms : Z) (event_cfg : odict rule)
    (ev : RawEvent tzone) (item : OutputEvent) :
  event_item zone baseline_ms event_cfg ev = Return (Some item) ↔
  ∃ d dl ms,
    Str.strip (str_or_empty (ev_title ev)) ≠ ""
    ∧ _ensure_datetime (ev_starts_at ev) = Some d
    ∧ localize zone d = Return dl
    ∧ utc_epoch_ms dl = Some ms
    ∧ baseline_ms ≤ ms
    ∧ item = {| main := Str.strip (str_or_empty (ev_title ev));
                url := resolve_link ev;
                timeDisp := _format_time_disp dl;
                timeLocalHM := _format_time_local_hm dl;
                timeISO := _format_time_iso_wall dl;
                isAllDay := false;
                daysDiff := (ms - baseline_ms) `div` 86400000;
                thread_id :=
                  py_or (dict_get (_pick_event_cfg
                                     (Str.strip (str_or_empty (ev_title ev)))
                                     event_cfg) "thread_id") VNone;
                reminder :=
                  truthy (dict_get (_pick_event_cfg
                                      (Str.strip (str_or_empty (ev_title ev)))
                                      event_cfg) "reminder") |}.
Proof.
  rewrite event_item_normalize. unfold normalize, str_truthy.
  destruct (String.eqb_spec (Str.strip (str_or_empty (ev_title ev))) "")
    as [Ht|Ht]; cbn [negb].
  { split; [done|]. by intros (? & ? & ? & ? & _). }
  destruct (_ensure_datetime (ev_starts_at ev)) as [d|].
  2:{ split; [done|]. by intros (? & ? & ? & _ & ? & _). }
  destruct (localize zone d) as [dl|e] eqn:Hl; cbn [mbind result_bind].
  2:{ split; [done|]. intros (? & ? & ? & _ & [= <-] & Hl' & _). congruence. }
  destruct (utc_epoch_ms dl) as [ms|] eqn:Hms; cbn [or_raise mbind result_bind].
  2:{ split; [done|]. intros (? & ? & ? & _ & [= <-] & Hl' & Hms' & _).
      congruence. }
  cbn [startsAtUtcMillis ne_title startsAtLocal].
  destruct (ms <? baseline_ms) eqn:Hlt.
  - apply Z.ltb_lt in Hlt. split; [done|].
    intros (? & dl' & ms' & _ & [= <-] & Hl' & Hms' & Hge & _).
    assert (dl' = dl) as -> by congruence.
    assert (ms' = ms) as -> by congruence. lia.
  - apply Z.ltb_ge in Hlt. split.
    + intros [= <-]. by exists d, dl, ms.
    + intros (? & dl' & ms' & _ & [= <-] & Hl' & Hms' & _ & ->).
      assert (dl' = dl) as -> by congruence.
      by assert (ms' = ms) as -> by congruence.
Qed.

End PipelineFacts.

(** ** Uniqueness of the stable sort *)

Section StableUnique.
Context {A : Type} (key : A -> string).

Lemma str_le_refl (s : string) : str_le s s.
Proof. unfold str_le, String.leb. by rewrite str_compare_refl. Qed.

Lemma str_le_antisym (a b : string) : str_le a b -> str_le b a -> a = b.
Proof. apply String.leb_antisym. Qed.

Lemma strongly_sorted_head_le (x e : A) (l : list A) :
  StronglySorted (key_le key) (x :: l) -> e ∈ x :: l -> key_le key x e.
Proof.
  intros Hs Hin. apply StronglySorted_inv in Hs as [_ Hall].
  apply elem_of_cons in Hin as [Heq|Hin].
  - subst e. unfold key_le. apply str_le_refl.
  - rewrite Forall_forall in Hall. by apply Hall.
Qed.

Lemma head_key_le (x y : A) (l1 l2 : list A) :
  StronglySorted (key_le key) (x :: l1) ->
  filter (λ e, key e = key y) (x :: l1) = filter (λ e, key e = key y) (y :: l2) ->
  key_le key x y.
Proof.
  intros Hs Hf.
  assert (y ∈ filter (λ e, key e = key y) (x :: l1)) as Hy.
  { rewrite Hf. apply list_elem_of_filter. split; [done|]. by left. }
  apply list_elem_of_filter in Hy as [Hk Hin].
  pose proof (strongly_sorted_head_le x y l1 Hs Hin) as Hle. done.
Qed.

Lemma stable_sorted_unique (l1 l2 : list A) :
  StronglySorted (key_le key) l1 -> StronglySorted (key_le key) l2 ->
  (∀ k, filter (λ e, key e = k) l1 = filter (λ e, key e = k) l2) ->
  l1 = l2.
Proof.
  revert l2. induction l1 as [|x l1 IH]; intros [|y l2] Hs1 Hs2 Hf; [done|..].
  - specialize (Hf (key y)). rewrite filter_cons in Hf.
    by destruct (decide (key y = key y)).
  - specialize (Hf (key x)). rewrite filter_cons in Hf.
    by destruct (decide (key x = key x)).
  - assert (key x = key y) as Hk.
    { apply str_le_antisym.
      - by apply (head_key_le x y l1 l2).
      - by apply (head_key_le y x l2 l1). }
    pose proof (Hf (key x)) as Hx. rewrite !filter_cons in Hx.
    destruct (decide (key x = key x)); [|done].
    destruct (decide (key y = key x)); [|congruence].
    injection Hx as <- Hx. f_equal.
    apply StronglySorted_inv in Hs1 as [Hs1 _].
    apply StronglySorted_inv in Hs2 as [Hs2 _].
    apply IH; [done..|]. intros k. specialize (Hf k).
    rewrite !filter_cons in Hf.
    destruct (decide (key x = k)); [by injection Hf|done].
Qed.

(** Every stable sort computes [sort_by_key]. *)
Lemma sort_by_key_unique (l out : list A) :
  StronglySorted (key_le key) out ->
  (∀ k, filter (λ e, key e = k) out = filter (λ e, key e = k) l) ->
  out = sort_by_key key l.
Proof.
  intros Hs Hf. apply stable_sorted_unique; [done|..].
  - apply sort_by_key_strongly_sorted.
  - intros k. by rewrite Hf, sort_by_key_stable.
Qed.

End StableUnique.

(** ** The handler *)

Section EventsFacts.
Context `{Upstream}.

Lemma events_Return (cfg : Config) (group url tz : option string)
    (u : pyval) (zone : tzone) (baseline_ms : Z) (html : list Byte.byte)
    (raw : list (RawEvent tzone)) :
  _determine_meetup_url cfg group url = Return u →
  ZoneInfo (if opt_truthy tz then str_or_empty tz else default_tz cfg) = Some zone →
  _today_1am_epoch_ms zone = Return baseline_ms →
  _fetch_html u default_max_bytes = Return html →
  teemup_parse html = Some raw →
  events cfg group url tz
  = events_items zone baseline_ms (default [] (event_config cfg)) raw.
Proof.
  intros Hu Hz Hb Hf Hp. unfold events. rewrite Hu. cbn [mbind result_bind].
  rewrite Hz. cbn [mbind result_bind]. rewrite Hb. cbn [mbind result_bind].
  rewrite Hf. cbn [mbind result_bind]. by rewrite Hp.
Qed.

Lemma events_Return_inv (cfg : Config) (group url tz : option string)
    (out : list OutputEvent) :
  events cfg group url tz = Return out →
  ∃ u zone baseline_ms html raw,
    _determine_meetup_url cfg group url = Return u
    ∧ ZoneInfo (if opt_truthy tz then str_or_empty tz else default_tz cfg)
      = Some zone
    ∧ _today_1am_epoch_ms zone = Return baseline_ms
    ∧ _fetch_html u default_max_bytes = Return html
    ∧ teemup_parse html = Some raw
    ∧ events_items zone baseline_ms (default [] (event_config cfg)) raw
      = Return out.
Proof.
  unfold events.
  destruct (_determine_meetup_url cfg group url) as [u|]; [|done].
  cbn [mbind result_bind].
  destruct (ZoneInfo _) as [zone|] eqn:Hz; [|done]. cbn [mbind result_bind].
  destruct (_today_1am_epoch_ms zone) as [baseline_ms|] eqn:Hb; [|done].
  cbn [mbind result_bind].
  destruct (_fetch_html u default_max_bytes) as [html|[]] eqn:Hf; [|done..].
  cbn [mbind result_bind].
  destruct (teemup_parse html) as [raw|] eqn:Hp; [|done]. cbn [mbind result_bind].
  intros Hout. by exists u, zone, baseline_ms, html, raw.
Qed.

End EventsFacts.

(** ** The start-time text *)

Lemma iso_text_Z (s p : string) :
  Str.strip s = p +:+ "Z" → iso_text s = p +:+ "+00:00".
Proof.
  intros Hs. unfold iso_text. by rewrite Hs, ends_with_char_app, drop_last_app.
Qed.

Lemma iso_text_other (s : string) :
  (∀ p, Str.strip s ≠ p +:+ "Z") → iso_text s = Str.strip s.
Proof.
  intros Hs. unfold iso_text.
  destruct (Str.ends_with_char "Z" (Str.strip s)) eqn:E; [|done].
  apply ends_with_char_inv in E as [p Hp]. by destruct (Hs p).
Qed.

(** ** Source selection *)

Lemma given_None (s : option string) : given s = None ↔ not_provided s.
Proof.
  unfold given, not_provided, str_truthy. destruct s as [v|].
  - destruct (String.eqb_spec v "") as [->|Hv]; simpl.
    + split; [by right|done].
    + split; [done|]. intros [Hn|[= Hn]]; [done|]. by destruct Hv.
  - split; [by left|done].
Qed.

Lemma given_Some (s : option string) (v : string) :
  s = Some v → v ≠ "" → given s = Some v.
Proof.
  intros -> Hv. unfold given, str_truthy.
  by destruct (String.eqb_spec v "").
Qed.

Lemma map_size_1_inv (m : gmap string pyval) :
  size m = 1%nat → ∃ k v, map_to_list m = [(k, v)] ∧ m = {[ k := v ]}.
Proof.
  intros Hsz. rewrite <- length_map_to_list in Hsz.
  destruct (map_to_list m) as [|[k v] [|? ?]] eqn:E; try done.
  exists k, v. split; [done|].
  rewrite <- (list_to_map_to_list m), E. simpl. by rewrite insert_empty.
Qed.

Section Selection.
Context (cfg : Config).
Let groups : gmap string pyval := default ∅ (meetup_groups cfg).

Lemma determine_url_given (group url : option string) (u : string) :
  url = Some u → u ≠ "" →
  _determine_meetup_url cfg group url = Return (VStr u).
Proof.
  intros Hu Hne. unfold _determine_meetup_url. by rewrite (given_Some url u).
Qed.

Lemma determine_group (group url : option string) (g : string) :
  not_provided url → group = Some g → g ≠ "" →
  _determine_meetup_url cfg group url
  = if truthy (dict_get groups g) then Return (dict_get groups g)
    else Raise (HTTPException 400 (UnknownGroup g)).
Proof.
  intros Hu%given_None Hg Hne. unfold _determine_meetup_url.
  rewrite Hu, (given_Some group g) by done. fold groups.
  by destruct (truthy _).
Qed.

Lemma determine_default (group url : option string) :
  not_provided url → not_provided group →
  _determine_meetup_url cfg group url
  = if (size groups =? 1)%nat
    then match map_to_list groups with
         | (_, v) :: _ => Return v
         | [] => Raise OtherException
         end
    else Raise (HTTPException 400 MissingSource).
Proof.
  intros Hu%given_None Hg%given_None. unfold _determine_meetup_url.
  by rewrite Hu, Hg.
Qed.

End Selection.

(** ** The response stream *)

Section Responses.
Context `{Upstream}.

Lemma fetch_read (url : pyval) (max_bytes : Z) (f : response)
    (data : list Byte.byte) :
  urlopen url = Some f → read f (max_bytes + 1) = Some data →
  _fetch_html url max_bytes
  = if Z.of_nat (length data) >? max_bytes
    then Raise (HTTPException 413 (TooLarge max_bytes))
    else Return data.
Proof. intros Hf Hdata. unfold _fetch_html. by rewrite Hf, Hdata. Qed.

Lemma fetch_delivered (url : pyval) (max_bytes : Z) (f : response) :
  urlopen url = Some f → delivers f →
  _fetch_html url max_bytes
  = if Z.of_nat (length (body f)) >? max_bytes
    then Raise (HTTPException 413 (TooLarge max_bytes))
    else Return (body f).
Proof.
  intros Hf Hread. rewrite (fetch_read url max_bytes f _ Hf (Hread _)).
  destruct (max_bytes + 1 <? 0) eqn:Hneg.
  - apply Z.ltb_lt in Hneg.
    destruct (Z.of_nat (length (body f)) >? max_bytes) eqn:E; [done|].
    rewrite Z.gtb_ltb in E. apply Z.ltb_ge in E. lia.
  - apply Z.ltb_ge in Hneg.
    destruct (Z.of_nat (length (body f)) >? max_bytes) eqn:E;
      rewrite Z.gtb_ltb in E.
    + apply Z.ltb_lt in E.
      destruct (_ >? _) eqn:E'; [done|].
      rewrite Z.gtb_ltb in E'. apply Z.ltb_ge in E'.
      rewrite length_take in E'. lia.
    + apply Z.ltb_ge in E. rewrite take_ge by lia.
      destruct (_ >? _) eqn:E'; [|done].
      rewrite Z.gtb_ltb in E'. apply Z.ltb_lt in E'. lia.
Qed.

End Responses.

(** ** The sample run *)

Import Fixed.

Lemma demo_baseline : _today_1am_epoch_ms Demo.phoenix = Return Demo.baseline.
Proof. vm_compute. reflexivity. Qed.

Lemma demo_items :
  events_items Demo.phoenix Demo.baseline Demo.event_cfg
    [Demo.ev_foo; Demo.ev_paren]
  = Return [Demo.item_paren; Demo.item_foo].
Proof. vm_compute. reflexivity. Qed.

Lemma demo_delivers (f : @response _ Demo.net) : @delivers _ Demo.net f.
Proof. intros amt. reflexivity. Qed.

Example events_demo :
  @events _ Demo.net Demo.cfg None None None
  = Return [ {| main := "Bar night";
                url := "https://x.test/e/1";
                timeDisp := "Sunday, June 01, 2025 at 07:30 PM";
                timeLocalHM := "07:30 PM";
                timeISO := "2025-06-01T19:30:00";
                isAllDay := false;
                daysDiff := 0;
                thread_id := VNone;
                reminder := false |};
             {| main := "Bar crawl with the Foo club";
                url := "https://meetup.test/foo";
                timeDisp := "Monday, June 02, 2025 at 02:00 AM";
                timeLocalHM := "02:00 AM";
                timeISO := "2025-06-02T02:00:00";
                isAllDay := false;
                daysDiff := 1;
                thread_id := VStr "1001";
                reminder := true |} ].
Proof. vm_compute. reflexivity. Qed.

(** * The specification, claim by claim *)

Section RuleMatcher.
Context `{DatetimeLib}.

(** C1.  The rule matcher starts from the rule under ["default"] (the empty
    rule when there is none), walks the other keys in their order, and the
    first key whose lowercase form occurs in the lowercased title gives the
    rule; with keys ["Foo"], ["Bar"] and a title containing both, the rule
    of ["Foo"] is chosen; with an empty [event_config] every emitted record
    has [reminder] false and [thread_id] [None]. *)
Theorem rule_matcher_first_match (title : string) (cfg : odict rule) :
  ((∀ k, k ∈ od_keys cfg → k ≠ "default" → ¬ matches_title title k) →
     _pick_event_cfg title cfg = default ∅ (od_get cfg "default"))
  ∧ (∀ pre post k r,
       cfg = pre ++ (k, r) :: post → NoDup (od_keys cfg) →
       k ≠ "default" → matches_title title k →
       (∀ k', k' ∈ od_keys pre → k' ≠ "default" → ¬ matches_title title k') →
       _pick_event_cfg title cfg = r)
  ∧ (∀ rf rb,
       occurs_in "foo" (Str.lower title) → occurs_in "bar" (Str.lower title) →
       _pick_event_cfg title [("Foo", rf); ("Bar", rb)] = rf)
  ∧ (∀ zone baseline_ms raw_events out item,
       events_items zone baseline_ms [] raw_events = Return out →
       item ∈ out →
       reminder item = false ∧ thread_id item = VNone).
Proof.
  split_and!.
  - apply pick_no_match.
  - intros pre post k r Hcfg Hnd Hk Hm Hpre. subst cfg.
    by apply pick_first_match.
  - intros rf rb Hfoo _.
    apply (pick_first_match title [] [("Bar", rb)] "Foo" rf).
    + apply (bool_decide_unpack _). vm_compute. exact I.
    + discriminate.
    + exact Hfoo.
    + intros k' Hin. by apply elem_of_nil in Hin.
  - intros zone baseline_ms raw_events out item Hout Hin.
    apply (elem_of_events_items _ _ _ _ _ item Hout) in Hin as (ev & _ & Hitem).
    apply event_item_Some in Hitem as (d & dl & ms & _ & _ & _ & _ & _ & ->).
    done.
Qed.

End RuleMatcher.

Lemma rule_matcher_first_match_witness :
  _pick_event_cfg "Bar crawl with the Foo club" Demo.event_cfg = Demo.rule_foo.
Proof.
  destruct (rule_matcher_first_match "Bar crawl with the Foo club" Demo.event_cfg)
    as (_ & Hfirst & _).
  apply (Hfirst [("default", Demo.rule_default)] [("Bar", Demo.rule_bar)]
                "Foo" Demo.rule_foo).
  - reflexivity.
  - apply (bool_decide_unpack _). vm_compute. exact I.
  - discriminate.
  - apply contains_occurs. vm_compute. reflexivity.
  - intros k' Hin Hne. apply list_elem_of_singleton in Hin. contradiction.
Defined.

(** C2, as the claim states it: one trailing parenthesis would stay.  The
    code removes both. *)
Lemma link_resolver_single_paren_counterexample :
  Str.strip (str_or_empty (ev_url Demo.ev_paren)) = ""
  ∧ ev_description Demo.ev_paren = Some "Join us (https://x.test/e/1))"
  ∧ resolve_link Demo.ev_paren = "https://x.test/e/1"
  ∧ resolve_link Demo.ev_paren ≠ "https://x.test/e/1)".
Proof. by vm_compute. Qed.

Section LinkResolver.
Context `{DatetimeLib}.

(** C2, amended.  For an event without a declared URL the link is the first
    match of [https?://\S+] in the trimmed description with every trailing
    [")"] removed, or the empty string when nothing matches; the description
    ["Join us (https://x.test/e/1))"] gives ["https://x.test/e/1"]. *)
Theorem link_resolver_strips_every_paren (ev : RawEvent tzone) :
  Str.strip (str_or_empty (ev_url ev)) = "" →
  let desc := Str.strip (str_or_empty (ev_description ev)) in
  (∀ m, first_match desc m →
     (∃ n, m = resolve_link ev +:+ Str.replicate n ")")
     ∧ Str.ends_with_char ")" (resolve_link ev) = false)
  ∧ (no_match desc → resolve_link ev = "")
  ∧ (no_match desc ∨ ∃ m, first_match desc m)
  ∧ (ev_description ev = Some "Join us (https://x.test/e/1))" →
     resolve_link ev = "https://x.test/e/1").
Proof.
  intros Hurl desc. unfold resolve_link. rewrite Hurl. cbn [str_truthy negb String.eqb].
  fold desc. split_and!.
  - intros m ->%first_match_re_search. split.
    + apply rstrip_char_split.
    + apply rstrip_char_no_trailing.
  - by intros ->%no_match_re_search.
  - destruct (re_search desc) as [m|] eqn:E.
    + right. exists m. by apply re_search_Some.
    + left. by apply re_search_None.
  - intros Hd. subst desc. by rewrite Hd.
Qed.

End LinkResolver.

Lemma link_resolver_strips_every_paren_witness :
  resolve_link Demo.ev_paren = "https://x.test/e/1".
Proof.
  destruct (link_resolver_strips_every_paren Demo.ev_paren) as (_ & _ & _ & Hex).
  - reflexivity.
  - apply Hex. reflexivity.
Defined.

Section Cutoff.
Context `{DatetimeLib}.

(** C3.  A normalised event that starts before the baseline is absent from
    the output; otherwise it appears, with [daysDiff] the floor of the
    difference over 86400000; no output record has a negative [daysDiff].
    The output exists when no iteration of the loop raises. *)
Theorem days_diff_floor_and_cutoff (zone : tzone) (baseline_ms : Z)
    (event_cfg : odict rule) :
  (∀ ev n, normalize zone ev = Return (Some n) →
     startsAtUtcMillis n < baseline_ms →
     event_item zone baseline_ms event_cfg ev = Return None
     ∧ ∀ pre post,
         events_items zone baseline_ms event_cfg (pre ++ ev :: post)
         = events_items zone baseline_ms event_cfg (pre ++ post))
  ∧ (∀ ev n, normalize zone ev = Return (Some n) →
     baseline_ms ≤ startsAtUtcMillis n →
     ∃ item,
       event_item zone baseline_ms event_cfg ev = Return (Some item)
       ∧ (∀ raw_events out, ev ∈ raw_events →
            events_items zone baseline_ms event_cfg raw_events = Return out →
            item ∈ out)
       ∧ (∀ raw_events, ev ∈ raw_events →
            (∀ ev', ev' ∈ raw_events → passes zone baseline_ms event_cfg ev') →
            ∃ out,
              events_items zone baseline_ms event_cfg raw_events = Return out
              ∧ item ∈ out)
       ∧ daysDiff item = (startsAtUtcMillis n - baseline_ms) `div` 86400000
       ∧ 86400000 * daysDiff item ≤ startsAtUtcMillis n - baseline_ms
         < 86400000 * (daysDiff item + 1))
  ∧ (∀ raw_events out item,
       events_items zone baseline_ms event_cfg raw_events = Return out →
       item ∈ out →
       0 ≤ daysDiff item).
Proof.
  split_and!.
  - intros ev n Hn Hlt.
    assert (event_item zone baseline_ms event_cfg ev = Return None) as Hnone.
    { rewrite event_item_normalize, Hn.
      by apply Z.ltb_lt in Hlt as ->. }
    split; [done|]. intros pre post. by apply events_items_skip.
  - intros ev n Hn Hge.
    pose proof (event_item_normalize zone baseline_ms event_cfg ev) as Hitem.
    rewrite Hn in Hitem. apply Z.ltb_ge in Hge as Hlt. rewrite Hlt in Hitem.
    eexists. split; [exact Hitem|]. cbn [daysDiff]. split_and!.
    + intros raw_events out Hin Hout.
      apply (elem_of_events_items _ _ _ _ _ _ Hout). eauto.
    + intros raw_events Hin Hpass. eexists. split.
      * by apply events_items_Return.
      * rewrite sort_by_key_perm. apply elem_of_emitted; [done|]. eauto.
    + done.
    + apply Z.mul_div_le. lia.
    + pose proof (Z.mul_succ_div_gt (startsAtUtcMillis n - baseline_ms) 86400000).
      lia.
  - intros raw_events out item Hout Hin.
    apply (elem_of_events_items _ _ _ _ _ item Hout) in Hin as (ev & _ & Hitem).
    apply event_item_Some in Hitem as (d & dl & ms & _ & _ & _ & _ & Hge & ->).
    cbn [daysDiff]. apply Z.div_pos; lia.
Qed.

End Cutoff.

Lemma days_diff_floor_and_cutoff_witness :
  (∃ n, normalize Demo.phoenix Demo.ev_foo = Return (Some n)
        ∧ startsAtUtcMillis n - Demo.baseline = 90000000)
  ∧ (∃ item, event_item Demo.phoenix Demo.baseline Demo.event_cfg Demo.ev_foo
             = Return (Some item) ∧ daysDiff item = 1)
  ∧ event_item Demo.phoenix Demo.baseline Demo.event_cfg Demo.ev_past
    = Return None.
Proof.
  destruct (days_diff_floor_and_cutoff Demo.phoenix Demo.baseline Demo.event_cfg)
    as (Hpast & Hfuture & _).
  split_and!.
  - eexists. split; [vm_compute; reflexivity|]. vm_compute. reflexivity.
  - destruct (Hfuture Demo.ev_foo
                {| ne_title := "Bar crawl with the Foo club";
                   startsAtLocal := at_offset 1748854800 0 Demo.phoenix;
                   startsAtUtcMillis := 1748854800000 |})
      as (item & Hitem & _ & _ & Hdiff & _).
    + vm_compute. reflexivity.
    + vm_compute. discriminate.
    + exists item. split; [exact Hitem|]. rewrite Hdiff. vm_compute. reflexivity.
  - eapply Hpast.
    + vm_compute. reflexivity.
    + vm_compute. reflexivity.
Defined.

Section StartTime.
Context `{DatetimeLib}.

(** C4.  A native timestamp is accepted as it is; a string is trimmed, a
    trailing [Z] becomes [+00:00], and the result is parsed; [None], any
    other shape and a parse failure are rejected; a value without an offset
    gets the target zone attached to its wall clock, a value with one is
    converted into the target zone by [astimezone].  When the library
    converts the start and gives its UTC milliseconds, the event is
    normalised to them; an [OverflowError] of either step is not caught. *)
Theorem start_time_normalisation (zone : tzone) :
  (∀ d, _ensure_datetime (StartDatetime d) = Some d)
  ∧ (∀ s, ∃ l r, s = l +:+ Str.strip s +:+ r
                 ∧ all_space l ∧ all_space r ∧ trimmed (Str.strip s))
  ∧ (∀ s p, Str.strip s = p +:+ "Z" →
       _ensure_datetime (StartStr s) = fromisoformat (p +:+ "+00:00"))
  ∧ (∀ s, (∀ p, Str.strip s ≠ p +:+ "Z") →
       _ensure_datetime (StartStr s) = fromisoformat (Str.strip s))
  ∧ _ensure_datetime StartNone = None
  ∧ _ensure_datetime StartOther = None
  ∧ (∀ d, tzinfo d = None →
       localize zone d = Return {| wall := wall d; tzinfo := Some zone |})
  ∧ (∀ d z d', tzinfo d = Some z → astimezone d zone = Some d' →
       localize zone d = Return d')
  ∧ (∀ d z, tzinfo d = Some z → astimezone d zone = None →
       localize zone d = Raise OtherException)
  ∧ (∀ ev, _ensure_datetime (ev_starts_at ev) = None →
       normalize zone ev = Return None)
  ∧ (∀ ev d dl ms,
       Str.strip (str_or_empty (ev_title ev)) ≠ "" →
       _ensure_datetime (ev_starts_at ev) = Some d →
       localize zone d = Return dl →
       utc_epoch_ms dl = Some ms →
       normalize zone ev
       = Return (Some {| ne_title := Str.strip (str_or_empty (ev_title ev));
                         startsAtLocal := dl;
                         startsAtUtcMillis := ms |}))
  ∧ (∀ ev d,
       Str.strip (str_or_empty (ev_title ev)) ≠ "" →
       _ensure_datetime (ev_starts_at ev) = Some d →
       localize zone d = Raise OtherException
       ∨ (∃ dl, localize zone d = Return dl ∧ utc_epoch_ms dl = None) →
       normalize zone ev = Raise OtherException).
Proof.
  split_and!; try done.
  - apply strip_split.
  - intros s p Hs. simpl. by rewrite (iso_text_Z s p).
  - intros s Hs. simpl. by rewrite iso_text_other.
  - intros d Hd. unfold localize. by rewrite Hd.
  - intros d z d' Hd Hconv. unfold localize. by rewrite Hd, Hconv.
  - intros d z Hd Hconv. unfold localize. by rewrite Hd, Hconv.
  - intros ev Hnone. unfold normalize. rewrite Hnone. by destruct (negb _).
  - intros ev d dl ms Ht Hd Hl Hms. unfold normalize, str_truthy.
    rewrite Hd, Hl. cbn [mbind result_bind]. rewrite Hms.
    by destruct (String.eqb_spec (Str.strip (str_or_empty (ev_title ev))) "").
  - intros ev d Ht Hd Hfail. unfold normalize, str_truthy. rewrite Hd.
    destruct (String.eqb_spec (Str.strip (str_or_empty (ev_title ev))) "");
      [done|]. cbn [negb].
    destruct Hfail as [->|(dl & -> & Hms)]; [done|].
    cbn [mbind result_bind]. by rewrite Hms.
Qed.

End StartTime.

Lemma start_time_normalisation_witness :
  _ensure_datetime (StartStr " 2025-06-02T09:00:00Z ")
  = Some {| wall := WallClock 2025 6 2 9 0 0 0 0; tzinfo := Some 0 |}
  ∧ localize Demo.phoenix {| wall := WallClock 2025 6 3 12 0 0 0 0; tzinfo := None |}
    = Return {| wall := WallClock 2025 6 3 12 0 0 0 0;
                tzinfo := Some Demo.phoenix |}
  ∧ localize Demo.phoenix {| wall := WallClock 2025 6 2 9 0 0 0 0; tzinfo := Some 0 |}
    = Return {| wall := WallClock 2025 6 2 2 0 0 0 0;
                tzinfo := Some Demo.phoenix |}
  ∧ localize Demo.tokyo {| wall := WallClock 9999 12 31 23 59 59 0 0; tzinfo := Some 0 |}
    = Raise OtherException
  ∧ normalize Demo.tokyo Demo.ev_last_second = Raise OtherException
  ∧ normalize Demo.phoenix Demo.ev_last_second_naive = Raise OtherException
  ∧ normalize Demo.phoenix Demo.ev_last_second
    = Return (Some {| ne_title := "Far future";
                      startsAtLocal :=
                        {| wall := WallClock 9999 12 31 16 59 59 0 0;
                           tzinfo := Some Demo.phoenix |};
                      startsAtUtcMillis := 253402300799000 |})
  ∧ normalize Demo.phoenix Demo.ev_bad_date = Return None.
Proof.
  destruct (start_time_normalisation Demo.phoenix)
    as (_ & _ & HZ & _ & _ & _ & Hnaive & Haware & _ & Hreject & Hok & Hraise').
  destruct (start_time_normalisation Demo.tokyo)
    as (_ & _ & _ & _ & _ & _ & _ & _ & Hover & _ & _ & Hraise).
  split_and!.
  - rewrite (HZ " 2025-06-02T09:00:00Z " "2025-06-02T09:00:00"); reflexivity.
  - rewrite Hnaive; reflexivity.
  - apply (Haware _ 0); reflexivity.
  - apply (Hover _ 0); reflexivity.
  - apply (Hraise Demo.ev_last_second
             {| wall := WallClock 9999 12 31 23 59 59 0 0; tzinfo := Some 0 |}).
    + vm_compute. discriminate.
    + vm_compute. reflexivity.
    + left. vm_compute. reflexivity.
  - apply (Hraise' Demo.ev_last_second_naive
             {| wall := WallClock 9999 12 31 23 59 59 0 0; tzinfo := None |}).
    + vm_compute. discriminate.
    + reflexivity.
    + right. eexists. split; [vm_compute; reflexivity|]. vm_compute. reflexivity.
  - apply (Hok Demo.ev_last_second
             {| wall := WallClock 9999 12 31 23 59 59 0 0; tzinfo := Some 0 |}).
    + vm_compute. discriminate.
    + vm_compute. reflexivity.
    + vm_compute. reflexivity.
    + vm_compute. reflexivity.
  - apply Hreject. reflexivity.
Defined.

Section Sorted.
Context `{Upstream}.

(** C5.  The returned list is sorted non-decreasing by [timeISO] in the
    lexicographic order of strings, and the sort is stable: it permutes the
    records the loop built and keeps the order of records with equal keys.
    No list is returned only when an iteration of the loop raised. *)
Theorem output_sorted_by_timeISO (zone : tzone) (baseline_ms : Z)
    (event_cfg : odict rule) (raw_events : list (RawEvent tzone)) :
  let items := omap (emitted zone baseline_ms event_cfg) raw_events in
  match events_items zone baseline_ms event_cfg raw_events with
  | Return out =>
      events_loop zone baseline_ms event_cfg raw_events [] = Return items
      ∧ Sorted (key_le timeISO) out
      ∧ StronglySorted (key_le timeISO) out
      ∧ out ≡ₚ items
      ∧ (∀ k, filter (λ e, timeISO e = k) out = filter (λ e, timeISO e = k) items)
  | Raise e =>
      ∃ ev, ev ∈ raw_events
            ∧ event_item zone baseline_ms event_cfg ev = Raise e
  end
  ∧ (∀ cfg group url tz,
       match events cfg group url tz with
       | Return l => StronglySorted (key_le timeISO) l
       | Raise _ => True
       end).
Proof.
  intros items. split.
  - destruct (events_items zone baseline_ms event_cfg raw_events) as [out|e] eqn:E.
    + apply events_items_Return_inv in E as (_ & Hloop & ->). split_and!.
      * done.
      * apply sort_by_key_sorted.
      * apply sort_by_key_strongly_sorted.
      * apply sort_by_key_perm.
      * intros k. apply sort_by_key_stable.
    + by apply events_items_Raise_inv.
  - intros cfg group url tz.
    destruct (events cfg group url tz) as [l|] eqn:E; [|done].
    apply events_Return_inv in E as (u & z & b & html & raw & _ & _ & _ & _ & _ & E).
    apply events_items_Return_inv in E as (_ & _ & ->).
    apply sort_by_key_strongly_sorted.
Qed.

End Sorted.

Section Malformed.
Context `{Upstream}.

(** C6.  An event whose title is missing, empty or all whitespace, or whose
    [starts_at] is missing or a string the parser rejects, is left out
    without an error: its iteration ends in [continue], the loop and the
    handler do with the batch what they do with the batch without it, and
    when no other event makes the loop raise, the list returned holds the
    record of every other event that yields one. *)
Theorem malformed_events_dropped (ev : RawEvent tzone) :
  (ev_title ev = None
   ∨ (∃ t, ev_title ev = Some t ∧ all_space t)
   ∨ ev_starts_at ev = StartNone
   ∨ (∃ s, ev_starts_at ev = StartStr s ∧ fromisoformat (iso_text s) = None)) →
  (∀ zone baseline_ms event_cfg,
     event_item zone baseline_ms event_cfg ev = Return None)
  ∧ (∀ zone baseline_ms event_cfg pre post,
       events_items zone baseline_ms event_cfg (pre ++ ev :: post)
       = events_items zone baseline_ms event_cfg (pre ++ post))
  ∧ (∀ zone baseline_ms event_cfg pre post,
       (∀ ev', ev' ∈ pre ++ post → passes zone baseline_ms event_cfg ev') →
       ∃ out,
         events_items zone baseline_ms event_cfg (pre ++ ev :: post) = Return out
         ∧ out ≡ₚ omap (emitted zone baseline_ms event_cfg) (pre ++ post)
         ∧ ∀ ev' item, ev' ∈ pre ++ post →
             event_item zone baseline_ms event_cfg ev' = Return (Some item) →
             item ∈ out)
  ∧ (∀ cfg group url tz u zone baseline_ms html pre post,
       _determine_meetup_url cfg group url = Return u →
       ZoneInfo (if opt_truthy tz then str_or_empty tz else default_tz cfg)
         = Some zone →
       _today_1am_epoch_ms zone = Return baseline_ms →
       _fetch_html u default_max_bytes = Return html →
       teemup_parse html = Some (pre ++ ev :: post) →
       events cfg group url tz
       = events_items zone baseline_ms (default [] (event_config cfg)) (pre ++ post)
       ∧ ((∀ ev', ev' ∈ pre ++ post →
             passes zone baseline_ms (default [] (event_config cfg)) ev') →
          ∃ out,
            events cfg group url tz = Return out
            ∧ ∀ ev' item, ev' ∈ pre ++ post →
                event_item zone baseline_ms (default [] (event_config cfg)) ev'
                = Return (Some item) →
                item ∈ out)).
Proof.
  intros Hbad.
  assert (∀ zone baseline_ms event_cfg,
            event_item zone baseline_ms event_cfg ev = Return None) as Hnone.
  { intros zone baseline_ms event_cfg. unfold event_item.
    destruct Hbad as [Ht | [(t & Ht & Hsp) | [Hs | (s & Hs & Hp)]]].
    - by rewrite Ht.
    - rewrite Ht. cbn [str_or_empty default]. by rewrite strip_all_space.
    - rewrite Hs. by destruct (negb _).
    - rewrite Hs. cbn [_ensure_datetime]. rewrite Hp. by destruct (negb _). }
  assert (∀ zone baseline_ms event_cfg pre post,
            (∀ ev', ev' ∈ pre ++ post → passes zone baseline_ms event_cfg ev') →
            ∃ out,
              events_items zone baseline_ms event_cfg (pre ++ ev :: post)
              = Return out
              ∧ out ≡ₚ omap (emitted zone baseline_ms event_cfg) (pre ++ post)
              ∧ ∀ ev' item, ev' ∈ pre ++ post →
                  event_item zone baseline_ms event_cfg ev' = Return (Some item) →
                  item ∈ out) as Hrest.
  { intros zone baseline_ms event_cfg pre post Hpass. eexists. split_and!.
    - rewrite events_items_skip by done. by apply events_items_Return.
    - apply sort_by_key_perm.
    - intros ev' item Hev' Hitem. rewrite sort_by_key_perm.
      apply elem_of_emitted; [done|]. eauto. }
  split_and!; [done|..].
  - intros. by apply events_items_skip.
  - done.
  - intros cfg group url tz u zone baseline_ms html pre post Hu Hz Hb Hf Hp.
    rewrite (events_Return cfg group url tz u zone baseline_ms html _ Hu Hz Hb Hf Hp).
    split; [by apply events_items_skip|].
    intros Hpass. destruct (Hrest _ _ _ pre post Hpass) as (out & Hout & _ & Hin).
    by exists out.
Qed.

End Malformed.

Lemma malformed_events_dropped_witness :
  event_item Demo.phoenix Demo.baseline Demo.event_cfg Demo.ev_bad_date
  = Return None
  ∧ event_item Demo.phoenix Demo.baseline Demo.event_cfg Demo.ev_blank_title
    = Return None
  ∧ events_items Demo.phoenix Demo.baseline Demo.event_cfg
      [Demo.ev_blank_title; Demo.ev_foo; Demo.ev_bad_date; Demo.ev_paren]
    = Return [Demo.item_paren; Demo.item_foo]
  ∧ (∃ out,
       events_items Demo.phoenix Demo.baseline Demo.event_cfg
         [Demo.ev_blank_title; Demo.ev_foo; Demo.ev_bad_date; Demo.ev_paren]
       = Return out
       ∧ Demo.item_foo ∈ out ∧ Demo.item_paren ∈ out)
  ∧ @events _ Demo.net Demo.cfg None None None
    = Return [Demo.item_paren; Demo.item_foo].
Proof.
  destruct (@malformed_events_dropped _ Demo.net Demo.ev_bad_date)
    as (Hdate & Hskip & Hloop & Hevents).
  { right. right. right. exists "not-a-date". split; reflexivity. }
  destruct (@malformed_events_dropped _ Demo.net Demo.ev_blank_title)
    as (Hblank & _ & _).
  { right. left. exists "   ". split; [reflexivity|]. vm_compute. tauto. }
  assert (∀ ev', ev' ∈ [Demo.ev_blank_title; Demo.ev_foo] ++ [Demo.ev_paren] →
            passes Demo.phoenix Demo.baseline Demo.event_cfg ev') as Hpass.
  { intros ev' Hev'. simpl in Hev'.
    apply elem_of_cons in Hev' as [->|Hev']; [eexists; vm_compute; reflexivity|].
    apply elem_of_cons in Hev' as [->|Hev']; [eexists; vm_compute; reflexivity|].
    apply list_elem_of_singleton in Hev' as ->. eexists. vm_compute. reflexivity. }
  split_and!.
  - apply Hdate.
  - apply Hblank.
  - change [Demo.ev_blank_title; Demo.ev_foo; Demo.ev_bad_date; Demo.ev_paren]
      with ([Demo.ev_blank_title; Demo.ev_foo] ++ Demo.ev_bad_date :: [Demo.ev_paren]).
    rewrite Hskip. vm_compute. reflexivity.
  - destruct (Hloop Demo.phoenix Demo.baseline Demo.event_cfg
                [Demo.ev_blank_title; Demo.ev_foo] [Demo.ev_paren] Hpass)
      as (out & Hout & _ & Hin).
    exists out. split_and!; [exact Hout|..].
    + apply (Hin Demo.ev_foo).
      * apply elem_of_cons. right. apply elem_of_cons. by left.
      * vm_compute. reflexivity.
    + apply (Hin Demo.ev_paren).
      * apply elem_of_cons. right. apply elem_of_cons. right.
        apply elem_of_cons. by left.
      * vm_compute. reflexivity.
  - destruct (Hevents Demo.cfg None None None (VStr "https://meetup.test/pydata")
                Demo.phoenix Demo.baseline Demo.page
                [Demo.ev_blank_title; Demo.ev_foo] [Demo.ev_paren])
      as (Hsame & _); [vm_compute; reflexivity..|].
    rewrite Hsame. vm_compute. reflexivity.
Defined.

(** C7.  Source selection: a given URL is returned; else a given group is
    looked up by its exact name, [UnknownGroup] when it is absent; else the
    only configured group is used; else [MissingSource]. *)
Theorem source_selection_tiers (cfg : Config) (group url : option string) :
  let groups := default ∅ (meetup_groups cfg) in
  (∀ u, url = Some u → u ≠ "" →
     _determine_meetup_url cfg group url = Return (VStr u))
  ∧ (∀ g, not_provided url → group = Some g → g ≠ "" → groups !! g = None →
       _determine_meetup_url cfg group url
       = Raise (HTTPException 400 (UnknownGroup g)))
  ∧ (∀ g v, not_provided url → group = Some g → g ≠ "" →
       groups !! g = Some v → truthy v = true →
       _determine_meetup_url cfg group url = Return v)
  ∧ (not_provided url → not_provided group → size groups = 1%nat →
       ∃ k v, groups = {[ k := v ]}
              ∧ _determine_meetup_url cfg group url = Return v)
  ∧ (not_provided url → not_provided group → size groups ≠ 1%nat →
       _determine_meetup_url cfg group url
       = Raise (HTTPException 400 MissingSource)).
Proof.
  intros groups. split_and!.
  - intros u. apply determine_url_given.
  - intros g Hu Hg Hne Hlook. rewrite (determine_group cfg group url g) by done.
    fold groups. unfold dict_get. by rewrite Hlook.
  - intros g v Hu Hg Hne Hlook Hv. rewrite (determine_group cfg group url g) by done.
    fold groups. unfold dict_get. rewrite Hlook. simpl. by rewrite Hv.
  - intros Hu Hg Hsz. rewrite determine_default by done. fold groups.
    rewrite Hsz. cbn [Nat.eqb].
    destruct (map_size_1_inv groups Hsz) as (k & v & Hl & Hm).
    exists k, v. by rewrite Hl.
  - intros Hu Hg Hsz. rewrite determine_default by done. fold groups.
    by apply Nat.eqb_neq in Hsz as ->.
Qed.

Lemma source_selection_tiers_witness :
  _determine_meetup_url Demo.cfg (Some "PyData") (Some "https://other.test/")
  = Return (VStr "https://other.test/")
  ∧ _determine_meetup_url Demo.cfg (Some "pydata") None
    = Raise (HTTPException 400 (UnknownGroup "pydata"))
  ∧ _determine_meetup_url Demo.cfg (Some "PyData") None
    = Return (VStr "https://meetup.test/pydata")
  ∧ (∃ k v, default ∅ (meetup_groups Demo.cfg) = {[ k := v ]}
            ∧ _determine_meetup_url Demo.cfg None None = Return v)
  ∧ _determine_meetup_url Demo.cfg_two_groups None None
    = Raise (HTTPException 400 MissingSource).
Proof.
  split_and!.
  - destruct (source_selection_tiers Demo.cfg (Some "PyData")
                (Some "https://other.test/")) as (Hurl & _).
    apply Hurl; [reflexivity|discriminate].
  - destruct (source_selection_tiers Demo.cfg (Some "pydata") None)
      as (_ & Hunknown & _).
    apply (Hunknown "pydata"); [by left|reflexivity|discriminate|].
    vm_compute. reflexivity.
  - destruct (source_selection_tiers Demo.cfg (Some "PyData") None)
      as (_ & _ & Hknown & _).
    apply (Hknown "PyData" (VStr "https://meetup.test/pydata")); [by left|reflexivity|discriminate| |reflexivity].
    vm_compute. reflexivity.
  - destruct (source_selection_tiers Demo.cfg None None)
      as (_ & _ & _ & Hsingle & _).
    apply Hsingle; [by left|by left|]. vm_compute. reflexivity.
  - destruct (source_selection_tiers Demo.cfg_two_groups None None)
      as (_ & _ & _ & _ & Hmissing).
    apply Hmissing; [by left|by left|]. vm_compute. discriminate.
Defined.

Section Fetch.
Context `{Upstream}.

(** C8.  The fetch never returns more than [max_bytes] bytes.  It asks the
    response for [max_bytes + 1] bytes and for nothing else: more than
    [max_bytes] bytes read raise the 413 [TooLarge] error, fewer are
    returned, and two responses that answer this one request alike get the
    same outcome, whatever else they hold.  For a response that delivers its
    body, at most [max_bytes + 1] bytes are read, a longer body raises 413
    and a body within the cap is returned whole.  The handler passes the 413
    on and turns any other failure of the fetch into 502. *)
Theorem fetch_never_exceeds_cap (url : pyval) (max_bytes : Z) :
  (∀ data, _fetch_html url max_bytes = Return data →
     Z.of_nat (length data) ≤ max_bytes)
  ∧ (∀ f data, urlopen url = Some f → read f (max_bytes + 1) = Some data →
       (max_bytes < Z.of_nat (length data) →
        _fetch_html url max_bytes = Raise (HTTPException 413 (TooLarge max_bytes)))
       ∧ (Z.of_nat (length data) ≤ max_bytes →
          _fetch_html url max_bytes = Return data))
  ∧ (∀ url' f f', urlopen url = Some f → urlopen url' = Some f' →
       read f (max_bytes + 1) = read f' (max_bytes + 1) →
       _fetch_html url max_bytes = _fetch_html url' max_bytes)
  ∧ (∀ f, urlopen url = Some f → delivers f →
       (∃ data, read f (max_bytes + 1) = Some data
                ∧ (0 ≤ max_bytes → Z.of_nat (length data) ≤ max_bytes + 1))
       ∧ (max_bytes < Z.of_nat (length (body f)) →
          _fetch_html url max_bytes
          = Raise (HTTPException 413 (TooLarge max_bytes)))
       ∧ (Z.of_nat (length (body f)) ≤ max_bytes →
          _fetch_html url max_bytes = Return (body f)))
  ∧ (urlopen url = None
     ∨ (∃ f, urlopen url = Some f ∧ read f (max_bytes + 1) = None) →
     _fetch_html url max_bytes = Raise OtherException)
  ∧ (∀ cfg group u tz zone baseline_ms d,
       _determine_meetup_url cfg group u = Return url →
       ZoneInfo (if opt_truthy tz then str_or_empty tz else default_tz cfg)
         = Some zone →
       _today_1am_epoch_ms zone = Return baseline_ms →
       (_fetch_html url default_max_bytes = Raise (HTTPException 413 d) →
        events cfg group u tz = Raise (HTTPException 413 d))
       ∧ (_fetch_html url default_max_bytes = Raise OtherException →
          events cfg group u tz = Raise (HTTPException 502 FetchError))).
Proof.
  split_and!.
  - intros data. unfold _fetch_html. destruct (urlopen url) as [f|]; [|done].
    destruct (read f (max_bytes + 1)) as [data'|]; [|done].
    cbn [or_raise mbind result_bind].
    destruct (_ >? _) eqn:E; [done|]. intros [= <-].
    rewrite Z.gtb_ltb in E. by apply Z.ltb_ge in E.
  - intros f data Hf Hdata. rewrite (fetch_read url max_bytes f data Hf Hdata).
    split; intros Hlen.
    + destruct (_ >? _) eqn:E; [done|].
      rewrite Z.gtb_ltb in E. apply Z.ltb_ge in E. lia.
    + destruct (_ >? _) eqn:E; [|done].
      rewrite Z.gtb_ltb in E. apply Z.ltb_lt in E. lia.
  - intros url' f f' Hf Hf' Hsame. unfold _fetch_html. by rewrite Hf, Hf', Hsame.
  - intros f Hf Hread. split_and!.
    + eexists. split; [apply Hread|]. intros Hcap.
      assert ((max_bytes + 1 <? 0) = false) as -> by (apply Z.ltb_ge; lia).
      rewrite length_take. lia.
    + intros Hlen. rewrite (fetch_delivered url max_bytes f Hf Hread).
      destruct (_ >? _) eqn:E; [done|].
      rewrite Z.gtb_ltb in E. apply Z.ltb_ge in E. lia.
    + intros Hlen. rewrite (fetch_delivered url max_bytes f Hf Hread).
      destruct (_ >? _) eqn:E; [|done].
      rewrite Z.gtb_ltb in E. apply Z.ltb_lt in E. lia.
  - intros [Hnone|(f & Hf & Hnone)]; unfold _fetch_html.
    + by rewrite Hnone.
    + by rewrite Hf, Hnone.
  - intros cfg group u tz zone baseline_ms d Hu Hz Hb. unfold events. rewrite Hu.
    cbn [mbind result_bind]. rewrite Hz. cbn [mbind result_bind].
    rewrite Hb. cbn [mbind result_bind].
    split; by intros ->.
Qed.

End Fetch.

Lemma fetch_never_exceeds_cap_witness :
  @_fetch_html _ Demo.net (VStr "https://meetup.test/pydata") 3
  = Raise (HTTPException 413 (TooLarge 3))
  ∧ @_fetch_html _ Demo.net (VStr "https://meetup.test/pydata") 4
    = Return Demo.page
  ∧ @_fetch_html _ Demo.net (VStr "https://meetup.test/long") 3
    = @_fetch_html _ Demo.net (VStr "https://meetup.test/pydata") 3
  ∧ (∃ data, @read _ Demo.net Demo.long_page (3 + 1) = Some data
             ∧ (0 ≤ 3 → Z.of_nat (length data) ≤ 3 + 1))
  ∧ @_fetch_html _ Demo.net VNone 4 = Raise OtherException.
Proof.
  split_and!.
  - destruct (@fetch_never_exceeds_cap _ Demo.net
                (VStr "https://meetup.test/pydata") 3) as (_ & _ & _ & Hbody & _).
    destruct (Hbody Demo.page) as (_ & Hbig & _);
      [reflexivity|apply demo_delivers|].
    apply Hbig. vm_compute. reflexivity.
  - destruct (@fetch_never_exceeds_cap _ Demo.net
                (VStr "https://meetup.test/pydata") 4) as (_ & _ & _ & Hbody & _).
    destruct (Hbody Demo.page) as (_ & _ & Hok);
      [reflexivity|apply demo_delivers|].
    apply Hok. vm_compute. discriminate.
  - destruct (@fetch_never_exceeds_cap _ Demo.net
                (VStr "https://meetup.test/long") 3) as (_ & _ & Hsame & _).
    apply (Hsame (VStr "https://meetup.test/pydata") Demo.long_page Demo.page);
      reflexivity.
  - destruct (@fetch_never_exceeds_cap _ Demo.net
                (VStr "https://meetup.test/long") 3) as (_ & _ & _ & Hbody & _).
    destruct (Hbody Demo.long_page) as (Hread & _);
      [reflexivity|apply demo_delivers|].
    exact Hread.
  - destruct (@fetch_never_exceeds_cap _ Demo.net VNone 4)
      as (_ & _ & _ & _ & Hnone & _).
    apply Hnone. left. reflexivity.
Defined.

Section Emitted.
Context `{DatetimeLib}.

(** C9.  In every output record [thread_id] is [None] when the chosen rule has
    no [thread_id], or [None], or the empty string (it is never [""]), and
    [reminder] is the truth value of the rule's [reminder], false when
    absent. *)
Theorem emitted_thread_id_and_reminder (zone : tzone) (baseline_ms : Z)
    (event_cfg : odict rule) (raw_events : list (RawEvent tzone))
    (out : list OutputEvent) (item : OutputEvent) :
  events_items zone baseline_ms event_cfg raw_events = Return out →
  item ∈ out →
  let chosen := _pick_event_cfg (main item) event_cfg in
  (chosen !! "thread_id" = None
   ∨ chosen !! "thread_id" = Some VNone
   ∨ chosen !! "thread_id" = Some (VStr "") → thread_id item = VNone)
  ∧ thread_id item ≠ VStr ""
  ∧ (∀ v, chosen !! "thread_id" = Some v → truthy v = true → thread_id item = v)
  ∧ (∀ v, chosen !! "thread_id" = Some v → truthy v = false →
       thread_id item = VNone)
  ∧ reminder item = match chosen !! "reminder" with
                    | Some v => truthy v
                    | None => false
                    end.
Proof.
  intros Hout Hin.
  apply (elem_of_events_items _ _ _ _ _ item Hout) in Hin as (ev & _ & Hitem).
  apply event_item_Some in Hitem as (d & dl & ms & _ & _ & _ & _ & _ & ->).
  cbv zeta. cbn [main thread_id reminder].
  set (chosen := _pick_event_cfg _ _).
  unfold py_or, dict_get. split_and!.
  - intros [-> | [-> | ->]]; done.
  - destruct (chosen !! "thread_id") as [v|]; [|done]. simpl.
    destruct (truthy v) eqn:Hv; [|done]. intros ->. done.
  - intros v -> Hv. simpl. by rewrite Hv.
  - intros v -> Hv. simpl. by rewrite Hv.
  - by destruct (chosen !! "reminder").
Qed.

End Emitted.

Lemma emitted_thread_id_and_reminder_witness :
  thread_id Demo.item_foo = VStr "1001" ∧ thread_id Demo.item_paren = VNone.
Proof.
  split.
  - destruct (emitted_thread_id_and_reminder Demo.phoenix Demo.baseline
                Demo.event_cfg [Demo.ev_foo; Demo.ev_paren]
                [Demo.item_paren; Demo.item_foo] Demo.item_foo)
      as (_ & _ & Hset & _).
    + apply demo_items.
    + apply elem_of_cons. right. apply elem_of_cons. by left.
    + apply Hset; [vm_compute|]; reflexivity.
  - destruct (emitted_thread_id_and_reminder Demo.phoenix Demo.baseline
                Demo.event_cfg [Demo.ev_foo; Demo.ev_paren]
                [Demo.item_paren; Demo.item_foo] Demo.item_paren)
      as (Hnull & _).
    + apply demo_items.
    + apply elem_of_cons. by left.
    + apply Hnull. right. right. vm_compute. reflexivity.
Defined.

(** C10.  An empty URL argument counts as not given, and a group whose
    configured value is [None] or the empty string fails with
    [UnknownGroup] although its key exists. *)
Theorem empty_url_and_empty_group_value (cfg : Config) (group : option string) :
  let groups := default ∅ (meetup_groups cfg) in
  _determine_meetup_url cfg group (Some "") = _determine_meetup_url cfg group None
  ∧ (∀ url g v, not_provided url → group = Some g → g ≠ "" →
       groups !! g = Some v → v = VNone ∨ v = VStr "" →
       _determine_meetup_url cfg group url
       = Raise (HTTPException 400 (UnknownGroup g)))
  ∧ (∀ url g v, not_provided url → group = Some g → g ≠ "" →
       groups !! g = Some v → truthy v = false →
       _determine_meetup_url cfg group url
       = Raise (HTTPException 400 (UnknownGroup g))).
Proof.
  intros groups.
  assert (∀ url g v, not_provided url → group = Some g → g ≠ "" →
            groups !! g = Some v → truthy v = false →
            _determine_meetup_url cfg group url
            = Raise (HTTPException 400 (UnknownGroup g))) as Hfalsy.
  { intros url g v Hu Hg Hne Hlook Hv.
    rewrite (determine_group cfg group url g) by done.
    fold groups. unfold dict_get. rewrite Hlook. simpl. by rewrite Hv. }
  split_and!; [done| |done].
  intros url g v Hu Hg Hne Hlook [-> | ->]; by eapply Hfalsy.
Qed.

Lemma empty_url_and_empty_group_value_witness :
  _determine_meetup_url Demo.cfg_two_groups (Some "Empty") (Some "")
  = Raise (HTTPException 400 (UnknownGroup "Empty"))
  ∧ _determine_meetup_url Demo.cfg_two_groups (Some "Null") None
    = Raise (HTTPException 400 (UnknownGroup "Null")).
Proof.
  split.
  - destruct (empty_url_and_empty_group_value Demo.cfg_two_groups (Some "Empty"))
      as (_ & Hempty & _).
    apply (Hempty (Some "") "Empty" (VStr ""));
      [by right|reflexivity|discriminate| |by right].
    vm_compute. reflexivity.
  - destruct (empty_url_and_empty_group_value Demo.cfg_two_groups (Some "Null"))
      as (_ & Hnull & _).
    apply (Hnull None "Null" VNone);
      [by left|reflexivity|discriminate| |by left].
    vm_compute. reflexivity.
Defined.

(** * Further properties of the code *)

(** ** Whitespace around a string *)

Lemma lstrip_app_space (l s : string) :
  all_space l → Str.lstrip (l +:+ s) = Str.lstrip s.
Proof.
  induction l as [|c l IH]; [done|]. intros [Hc Hl].
  rewrite str_app_cons. simpl. rewrite Hc. by apply IH.
Qed.

Lemma rstrip_all_space (r : string) : all_space r → Str.rstrip r = "".
Proof.
  induction r as [|c r IH]; [done|]. intros [Hc Hr].
  rewrite rstrip_eq, IH by done. by rewrite Hc.
Qed.

Lemma rstrip_app_space (s r : string) :
  all_space r → Str.rstrip (s +:+ r) = Str.rstrip s.
Proof.
  intros Hr. induction s as [|c s IH].
  - by rewrite str_app_nil_l, rstrip_all_space.
  - by rewrite str_app_cons, !rstrip_eq, IH.
Qed.

Lemma strip_app_space_r (s r : string) :
  all_space r → Str.strip (s +:+ r) = Str.strip s.
Proof.
  intros Hr. unfold Str.strip. induction s as [|c s IH].
  - rewrite str_app_nil_l, lstrip_all_space by done. done.
  - rewrite str_app_cons. simpl. destruct (Str.is_space c); [done|].
    by rewrite <- str_app_cons, rstrip_app_space.
Qed.

Lemma strip_surrounding (l s r : string) :
  all_space l → all_space r → Str.strip (l +:+ s +:+ r) = Str.strip s.
Proof.
  intros Hl Hr. rewrite <- (strip_app_space_r s r Hr).
  unfold Str.strip. by rewrite lstrip_app_space.
Qed.

Lemma lstrip_app_nonspace (p : string) (c : ascii) (x : string) :
  Str.is_space c = false →
  Str.lstrip (p +:+ String c x) = Str.lstrip p +:+ String c x.
Proof.
  intros Hc. induction p as [|d p IH].
  - rewrite !str_app_nil_l. simpl. by rewrite Hc.
  - rewrite str_app_cons. simpl. by destruct (Str.is_space d).
Qed.

Lemma rstrip_app_nonspace (t : string) (c : ascii) :
  Str.is_space c = false →
  Str.rstrip (t +:+ String c "") = t +:+ String c "".
Proof.
  intros Hc. induction t as [|d t IH].
  - rewrite str_app_nil_l. simpl. by rewrite Hc.
  - rewrite str_app_cons, rstrip_eq, IH. by destruct t.
Qed.

Lemma ends_with_char_last (ch : ascii) (t : string) (c : ascii) :
  Str.ends_with_char ch (t +:+ String c "") = Ascii.eqb c ch.
Proof.
  induction t as [|d t IH]; [done|].
  rewrite str_app_cons, ends_with_char_eq, IH. by destruct t.
Qed.

Lemma strip_app_nonspace (p x : string) (c d : ascii) :
  Str.is_space c = false → Str.is_space d = false →
  Str.strip (p +:+ String c (x +:+ String d ""))
  = Str.lstrip p +:+ String c (x +:+ String d "").
Proof.
  intros Hc Hd. unfold Str.strip. rewrite lstrip_app_nonspace by done.
  rewrite <- str_app_cons, <- str_app_assoc.
  by rewrite rstrip_app_nonspace.
Qed.

Lemma strip_app_last (p : string) (d : ascii) :
  Str.is_space d = false →
  Str.strip (p +:+ String d "") = Str.lstrip p +:+ String d "".
Proof.
  intros Hd. unfold Str.strip. rewrite lstrip_app_nonspace by done.
  by rewrite rstrip_app_nonspace.
Qed.

(** ** The pattern and whitespace *)

Lemma nonspace_app (a b : string) : nonspace (a +:+ b) ↔ nonspace a ∧ nonspace b.
Proof.
  induction a as [|c a IH]; simpl; [tauto|].
  change (String c a +:+ b) with (String c (a +:+ b)). simpl. tauto.
Qed.

Lemma url_like_nonspace (m : string) : url_like m → nonspace m.
Proof.
  intros (run & _ & Hrun & [-> | ->]); apply nonspace_app; split; try done;
    vm_compute; tauto.
Qed.

Lemma rstrip_char_app_keep (ch : ascii) (a b : string) :
  a ≠ "" → Str.ends_with_char ch a = false →
  Str.rstrip_char ch (a +:+ b) = a +:+ Str.rstrip_char ch b.
Proof.
  induction a as [|c a IH]; [done|]. intros _ Hend.
  rewrite ends_with_char_eq in Hend. rewrite str_app_cons, rstrip_char_eq.
  destruct a as [|d a].
  - rewrite !str_app_nil_l. rewrite Hend.
    by destruct (Str.rstrip_char ch b).
  - rewrite IH by done. done.
Qed.

Lemma re_tail_space (scheme : string) (c : ascii) (s : string) :
  Str.is_space c = true → re_tail (String "h" scheme) (String c s) = None.
Proof.
  intros Hc. unfold re_tail.
  destruct (String.prefix (String "h" scheme) (String c s)) eqn:E; [|done].
  apply prefix_inv in E as (b & Hb). rewrite str_app_cons in Hb.
  injection Hb as -> _. done.
Qed.

Lemma re_match_at_space (c : ascii) (s : string) :
  Str.is_space c = true → re_match_at (String c s) = None.
Proof.
  intros Hc. unfold re_match_at. by rewrite !re_tail_space.
Qed.

Lemma re_search_lstrip (s : string) : re_search (Str.lstrip s) = re_search s.
Proof.
  induction s as [|c s IH]; [done|]. simpl Str.lstrip.
  destruct (Str.is_space c) eqn:Hc; [|done].
  by rewrite (re_search_eq (String c s)), re_match_at_space.
Qed.

Lemma re_search_all_space (r : string) : all_space r → re_search r = None.
Proof.
  induction r as [|c r IH]; [done|]. intros [Hc Hr].
  by rewrite re_search_eq, re_match_at_space, IH.
Qed.

Lemma at_boundary_app_space (rest r : string) :
  at_boundary rest → all_space r → at_boundary (rest +:+ r).
Proof.
  destruct rest as [|c rest]; [|done]. intros _. rewrite str_app_nil_l.
  destruct r as [|d r]; [done|]. by intros [Hd _].
Qed.

Lemma nonspace_prefix_of_app_space (m t r rest : string) :
  nonspace m → all_space r → t +:+ r = m +:+ rest → ∃ t', t = m +:+ t'.
Proof.
  revert t. induction m as [|c m IH]; intros t Hm Hr Heq.
  - by exists t.
  - destruct Hm as [Hc Hm]. destruct t as [|d t].
    + rewrite str_app_nil_l in Heq. subst r. rewrite str_app_cons in Hr.
      destruct Hr as [Hc' _]. congruence.
    + rewrite !str_app_cons in Heq. injection Heq as -> Heq.
      destruct (IH t Hm Hr Heq) as (t' & ->). by exists t'.
Qed.

Lemma re_match_at_app_space (t r : string) :
  all_space r → re_match_at (t +:+ r) = re_match_at t.
Proof.
  intros Hr. destruct (re_match_at t) as [m|] eqn:E.
  - apply re_match_at_Some in E as (Hm & rest & -> & Hrest).
    rewrite str_app_assoc. apply re_match_at_app; [done|].
    by apply at_boundary_app_space.
  - destruct (re_match_at (t +:+ r)) as [m|] eqn:E'; [|done].
    apply re_match_at_Some in E' as (Hm & rest & Heq & _).
    destruct (nonspace_prefix_of_app_space m t r rest) as (t' & ->);
      [by apply url_like_nonspace|done..|].
    apply re_match_at_None in E. destruct E. by exists m, t'.
Qed.

Lemma re_search_app_space (t r : string) :
  all_space r → re_search (t +:+ r) = re_search t.
Proof.
  intros Hr. induction t as [|c t IH].
  - rewrite str_app_nil_l. by apply re_search_all_space.
  - rewrite (re_search_eq (String c t +:+ r)), (re_search_eq (String c t)).
    rewrite re_match_at_app_space by done. rewrite str_app_cons.
    by rewrite IH.
Qed.

Lemma re_search_strip (s : string) : re_search (Str.strip s) = re_search s.
Proof.
  unfold Str.strip. rewrite <- (re_search_lstrip s).
  destruct (rstrip_split (Str.lstrip s)) as (r & Hs & Hr & _).
  rewrite Hs at 2. by rewrite re_search_app_space.
Qed.

Lemma re_search_occurs (s m : string) : re_search s = Some m → occurs_in m s.
Proof.
  intros (pre & rest & -> & _)%re_search_Some. by exists pre, rest.
Qed.

(** ** Keys and letter case *)

Lemma first_matching_key (title : string) (cfg : odict rule) :
  (∀ k, k ∈ od_keys cfg → k ≠ "default" → ¬ matches_title title k)
  ∨ ∃ pre k r post,
      cfg = pre ++ (k, r) :: post ∧ k ≠ "default" ∧ matches_title title k
      ∧ ∀ k', k' ∈ od_keys pre → k' ≠ "default" → ¬ matches_title title k'.
Proof.
  induction cfg as [|[k r] cfg IH].
  - left. intros k Hk. by apply elem_of_nil in Hk.
  - assert (k ≠ "default" ∧ matches_title title k
            ∨ (k ≠ "default" → ¬ matches_title title k)) as [[Hk Hm]|Hskip].
    { destruct (decide (k = "default")) as [->|Hk]; [by right|].
      destruct (Str.contains (Str.lower k) (Str.lower title)) eqn:E.
      - left. split; [done|]. by apply contains_occurs.
      - right. intros _ Hm%contains_occurs. unfold matches_title in *. congruence. }
    + right. exists [], k, r, cfg. split_and!; try done.
      intros k' Hk'. by apply elem_of_nil in Hk'.
    + destruct IH as [Hnone|(pre & k1 & r1 & post & -> & Hk1 & Hm1 & Hpre)].
      * left. intros k' Hk'. unfold od_keys in Hk'. rewrite fmap_cons in Hk'.
        cbn [fst] in Hk'. apply elem_of_cons in Hk' as [->|Hk']; [done|].
        by apply Hnone.
      * right. exists ((k, r) :: pre), k1, r1, post. split_and!; try done.
        intros k' Hk'. unfold od_keys in Hk'. rewrite fmap_cons in Hk'.
        cbn [fst] in Hk'. apply elem_of_cons in Hk' as [->|Hk']; [done|].
        by apply Hpre.
Qed.

Lemma lower_char_idemp (c : ascii) :
  Str.lower_char (Str.lower_char c) = Str.lower_char c.
Proof. destruct c as [[] [] [] [] [] [] [] []]; reflexivity. Qed.

Lemma lower_idemp (s : string) : Str.lower (Str.lower s) = Str.lower s.
Proof.
  induction s as [|c s IH]; [done|]. simpl. by rewrite lower_char_idemp, IH.
Qed.

(** ** Lists of records *)

Lemma length_omap_filter {A B : Type} (f : A → option B) (l : list A) :
  length (omap f l) = length (filter (λ x, is_Some (f x)) l).
Proof.
  induction l as [|x l IH]; [done|]. rewrite filter_cons.
  destruct (decide (is_Some (f x))) as [[y Hy]|Hn]; simpl.
  - by rewrite Hy, <- IH.
  - destruct (f x) as [y|]; [|done]. destruct Hn. by exists y.
Qed.

Lemma filter_key_at_most_one {A : Type} (key : A → string) (k : string)
    (l : list A) :
  NoDup (key <$> l) → (length (filter (λ e, key e = k) l) ≤ 1)%nat.
Proof.
  induction l as [|x l IH]; [simpl; lia|].
  rewrite fmap_cons, NoDup_cons, filter_cons. intros [Hx Hnd].
  destruct (decide (key x = k)) as [Hk|Hk]; [|by apply IH].
  assert (filter (λ e, key e = k) l = []) as ->; [|simpl; lia].
  destruct (filter (λ e, key e = k) l) as [|y l'] eqn:E; [done|].
  assert (y ∈ filter (λ e, key e = k) l) as Hy by (rewrite E; by left).
  apply list_elem_of_filter in Hy as [Hyk Hyl]. destruct Hx.
  rewrite Hk, <- Hyk. by apply list_elem_of_fmap_2.
Qed.

Lemma perm_short_eq {A : Type} (l1 l2 : list A) :
  l1 ≡ₚ l2 → (length l1 ≤ 1)%nat → l1 = l2.
Proof.
  intros Hp Hlen. destruct l1 as [|x [|y l1]]; [..|simpl in Hlen; lia].
  - by apply Permutation_nil in Hp.
  - by apply Permutation_length_1_inv in Hp.
Qed.

(** ** Source selection and configuration *)

Lemma determine_raises (cfg : Config) (group url : option string) (e : exn) :
  _determine_meetup_url cfg group url = Raise e →
  e = HTTPException 400 MissingSource
  ∨ ∃ g, group = Some g ∧ g ≠ "" ∧ e = HTTPException 400 (UnknownGroup g).
Proof.
  unfold _determine_meetup_url.
  destruct (given url) as [u|]; [done|].
  destruct (given group) as [g|] eqn:Hg.
  - destruct (negb _); [|done]. intros [= <-]. right. exists g.
    unfold given in Hg. destruct group as [g'|]; [|done].
    unfold str_truthy in Hg. destruct (String.eqb_spec g' ""); [done|].
    injection Hg as ->. done.
  - destruct (size _ =? 1)%nat eqn:Hsz.
    + apply Nat.eqb_eq in Hsz.
      destruct (map_size_1_inv _ Hsz) as (k & v & -> & _). done.
    + intros [= <-]. by left.
Qed.

Lemma py_get_app (d d' : pydict) (name : string) :
  py_get (d ++ d') name
  = match py_get d name with Some v => Some v | None => py_get d' name end.
Proof.
  induction d as [|[k v] d IH]; [done|]. simpl. by destruct (is_key name k).
Qed.

Lemma setdefault_spec (d : pydict) (name : string) (v : pyval) :
  (∃ added, setdefault d name v = d ++ added)
  ∧ is_Some (py_get (setdefault d name v) name)
  ∧ ∀ name' v', py_get d name' = Some v' →
      py_get (setdefault d name v) name' = Some v'.
Proof.
  unfold setdefault. destruct (py_get d name) as [w|] eqn:E.
  - split_and!; [exists []; by rewrite app_nil_r|by rewrite E|done].
  - split_and!; [by eexists| |].
    + rewrite py_get_app, E. simpl. by rewrite String.eqb_refl.
    + intros name' v' Hget. by rewrite py_get_app, Hget.
Qed.

Lemma default_last_cons {A : Type} (a c : A) (l : list A) :
  default a (last (c :: l)) = default c (last l).
Proof. rewrite last_cons. by destruct (last l). Qed.

(** ** The handler's failures *)

Section Handler.
Context `{DatetimeLib}.

Lemma localize_raises (zone : tzone) (d : datetime tzone) (e : exn) :
  localize zone d = Raise e → e = OtherException.
Proof.
  unfold localize. destruct (tzinfo d); [|done].
  destruct (astimezone d zone); [done|]. by intros [= <-].
Qed.

Lemma event_item_raises (zone : tzone) (baseline_ms : Z) (event_cfg : odict rule)
    (ev : RawEvent tzone) (e : exn) :
  event_item zone baseline_ms event_cfg ev = Raise e →
  e = OtherException
  ∧ Str.strip (str_or_empty (ev_title ev)) ≠ ""
  ∧ ∃ d, _ensure_datetime (ev_starts_at ev) = Some d
         ∧ (localize zone d = Raise OtherException
            ∨ ∃ dl, localize zone d = Return dl ∧ utc_epoch_ms dl = None).
Proof.
  unfold event_item, str_truthy.
  destruct (String.eqb_spec (Str.strip (str_or_empty (ev_title ev))) "")
    as [|Ht]; [done|]. cbn [negb].
  destruct (_ensure_datetime (ev_starts_at ev)) as [d|]; [|done].
  destruct (localize zone d) as [dl|e'] eqn:Hl; cbn [mbind result_bind].
  - destruct (utc_epoch_ms dl) as [ms|] eqn:Hms; cbn [or_raise mbind result_bind].
    + by destruct (_ <? _).
    + intros [= <-]. split_and!; [done..|]. exists d. split; [done|]. right. eauto.
  - intros [= <-]. pose proof (localize_raises _ _ _ Hl) as ->.
    split_and!; [done..|]. exists d. split; [done|]. by left.
Qed.

(** X1.  Every [HTTPException] the handler raises names the stage that
    failed: 400 comes from source selection (a missing source, or the given
    group) or, with a source in hand, from an invalid zone name; with a zone
    and a baseline, 413 is the fetch passing the cap of 3000000 bytes, 502 a
    fetch that failed otherwise, and 500 a page the parser rejected. *)
Theorem events_failure_statuses (U : Upstream) (cfg : Config)
    (group url tz : option string) (status : Z) (d : detail) :
  events cfg group url tz = Raise (HTTPException status d) →
  let tz_name := if opt_truthy tz then str_or_empty tz else default_tz cfg in
  (status = 400
   ∧ _determine_meetup_url cfg group url = Raise (HTTPException 400 d)
   ∧ (d = MissingSource ∨ ∃ g, group = Some g ∧ g ≠ "" ∧ d = UnknownGroup g))
  ∨ (∃ u, _determine_meetup_url cfg group url = Return u
          ∧ ((status = 400 ∧ d = InvalidTimeZone tz_name
              ∧ ZoneInfo tz_name = None)
             ∨ (∃ zone baseline_ms,
                  ZoneInfo tz_name = Some zone
                  ∧ _today_1am_epoch_ms zone = Return baseline_ms
                  ∧ ((status = 413 ∧ d = TooLarge default_max_bytes
                      ∧ _fetch_html u default_max_bytes
                        = Raise (HTTPException 413 d))
                     ∨ (status = 502 ∧ d = FetchError
                        ∧ _fetch_html u default_max_bytes = Raise OtherException)
                     ∨ (status = 500 ∧ d = ParseError
                        ∧ ∃ html, _fetch_html u default_max_bytes = Return html
                                  ∧ teemup_parse html = None))))).
Proof.
  intros Hraise tz_name. unfold events in Hraise. fold tz_name in Hraise.
  destruct (_determine_meetup_url cfg group url) as [u|e'] eqn:Hu;
    cbn [mbind result_bind] in Hraise.
  - right. exists u. split; [done|].
    destruct (ZoneInfo tz_name) as [zone|] eqn:Hz; cbn [mbind result_bind] in Hraise.
    2:{ injection Hraise as <- <-. by left. }
    destruct (_today_1am_epoch_ms zone) as [baseline_ms|e'] eqn:Hb;
      cbn [mbind result_bind] in Hraise.
    2:{ injection Hraise as ->. unfold _today_1am_epoch_ms in Hb.
        by destruct (utc_epoch_ms _). }
    right. exists zone, baseline_ms. split_and!; [done..|].
    destruct (_fetch_html u default_max_bytes) as [html|[status' d'|]] eqn:Hf;
      cbn [mbind result_bind] in Hraise.
    + destruct (teemup_parse html) as [raw|] eqn:Hp;
        cbn [mbind result_bind] in Hraise.
      * apply events_items_Raise_inv in Hraise as (ev & _ & Hev).
        by apply event_item_raises in Hev as [? _].
      * injection Hraise as <- <-. right. right. split_and!; [done..|]. eauto.
    + injection Hraise as -> ->. left.
      assert (status = 413 ∧ d = TooLarge default_max_bytes) as [-> ->]; [|done].
      unfold _fetch_html in Hf. destruct (urlopen u) as [f|]; [|done].
      destruct (read f _); cbn [or_raise mbind result_bind] in Hf; [|done].
      destruct (_ >? _); [|done]. by injection Hf as <- <-.
    + injection Hraise as <- <-. right. left. done.
  - injection Hraise as ->. left.
    apply determine_raises in Hu as Hd.
    destruct Hd as [[= -> ->]|(g & Hg & Hne & [= -> ->])].
    + split_and!; [done..|]. by left.
    + split_and!; [done..|]. right. by exists g.
Qed.

(** X2.  When the resolved zone name is invalid the handler's answer does not
    depend on the network or the parser: it is the error of source selection
    when that fails, and 400 [InvalidTimeZone] otherwise. *)
Theorem invalid_zone_needs_no_fetch (U1 U2 : Upstream) (cfg : Config)
    (group url tz : option string) :
  ZoneInfo (if opt_truthy tz then str_or_empty tz else default_tz cfg) = None →
  @events _ U1 cfg group url tz = @events _ U2 cfg group url tz
  ∧ (∀ u, _determine_meetup_url cfg group url = Return u →
       @events _ U1 cfg group url tz
       = Raise (HTTPException 400
                  (InvalidTimeZone
                     (if opt_truthy tz then str_or_empty tz else default_tz cfg))))
  ∧ (∀ e, _determine_meetup_url cfg group url = Raise e →
       @events _ U1 cfg group url tz = Raise e).
Proof.
  intros Hz. unfold events. rewrite Hz.
  destruct (_determine_meetup_url cfg group url) as [u|e]; split_and!;
    try done; by intros ? [= <-].
Qed.

(** X3.  An empty [tz] argument is the same as none, and a non-empty one
    makes the configured [default_tz] irrelevant. *)
Theorem zone_argument_overrides_default (U : Upstream) (cfg : Config)
    (group url : option string) :
  events cfg group url (Some "") = events cfg group url None
  ∧ (∀ t other, t ≠ "" →
       events cfg group url (Some t)
       = events {| default_tz := other;
                   meetup_groups := meetup_groups cfg;
                   event_config := event_config cfg |} group url (Some t)).
Proof.
  split; [done|]. intros t other Ht.
  assert (opt_truthy (Some t) = true) as Htruthy.
  { unfold opt_truthy, str_truthy, str_or_empty. simpl.
    by destruct (String.eqb_spec t ""). }
  unfold events. by rewrite Htruthy.
Qed.

End Handler.

Lemma events_failure_statuses_witness :
  _determine_meetup_url Demo.cfg_two_groups None None
  = Raise (HTTPException 400 MissingSource)
  ∨ ∃ u, _determine_meetup_url Demo.cfg_two_groups None None = Return u.
Proof.
  destruct (@events_failure_statuses _ Demo.net Demo.cfg_two_groups None None None
              400 MissingSource) as [(_ & Hsel & _)|(u & Hu & _)].
  - vm_compute. reflexivity.
  - by left.
  - right. by exists u.
Defined.

Lemma invalid_zone_needs_no_fetch_witness :
  @events _ Demo.net Demo.cfg None None (Some "Mars/Olympus")
  = Raise (HTTPException 400 (InvalidTimeZone "Mars/Olympus")).
Proof.
  destruct (@invalid_zone_needs_no_fetch _ Demo.net Demo.net Demo.cfg None None
              (Some "Mars/Olympus")) as (_ & Hbad & _).
  - reflexivity.
  - apply (Hbad (VStr "https://meetup.test/pydata")). vm_compute. reflexivity.
Defined.

Lemma zone_argument_overrides_default_witness :
  @events _ Demo.net Demo.cfg None None (Some "UTC")
  = @events _ Demo.net
      {| default_tz := "Mars/Olympus";
         meetup_groups := meetup_groups Demo.cfg;
         event_config := event_config Demo.cfg |} None None (Some "UTC").
Proof.
  destruct (@zone_argument_overrides_default _ Demo.net Demo.cfg None None)
    as (_ & Hover).
  apply Hover. discriminate.
Defined.

(** ** The records of the loop *)

Section Records.
Context `{DatetimeLib}.

(** X4.  Every record of a returned list stems from a raw event of the feed:
    its [main] is that event's trimmed title, which is not empty, its start
    was accepted, converted and is not before the baseline, its [url] is the
    resolved link, its three time fields format the same zoned start, and
    [isAllDay] is false. *)
Theorem emitted_record_provenance (zone : tzone) (baseline_ms : Z)
    (event_cfg : odict rule) (raw_events : list (RawEvent tzone))
    (out : list OutputEvent) (item : OutputEvent) :
  events_items zone baseline_ms event_cfg raw_events = Return out →
  item ∈ out →
  main item ≠ "" ∧ trimmed (main item) ∧ isAllDay item = false
  ∧ ∃ ev d dl ms,
      ev ∈ raw_events
      ∧ main item = Str.strip (str_or_empty (ev_title ev))
      ∧ _ensure_datetime (ev_starts_at ev) = Some d
      ∧ localize zone d = Return dl
      ∧ utc_epoch_ms dl = Some ms
      ∧ baseline_ms ≤ ms
      ∧ url item = resolve_link ev
      ∧ timeDisp item = _format_time_disp dl
      ∧ timeLocalHM item = _format_time_local_hm dl
      ∧ timeISO item = _format_time_iso_wall dl
      ∧ daysDiff item = (ms - baseline_ms) `div` 86400000.
Proof.
  intros Hout Hin.
  apply (elem_of_events_items _ _ _ _ _ item Hout) in Hin as (ev & Hev & Hitem).
  apply event_item_Some in Hitem as (d & dl & ms & Ht & Hd & Hl & Hms & Hge & ->).
  cbn [main isAllDay url timeDisp timeLocalHM timeISO daysDiff].
  split_and!; try done.
  - by destruct (strip_split (str_or_empty (ev_title ev)))
      as (? & ? & _ & _ & _ & ?).
  - by exists ev, d, dl, ms.
Qed.

(** X5.  An iteration appends a record exactly when the trimmed title is not
    empty, the start is accepted, the library converts it and gives its UTC
    milliseconds, and these are not before the baseline; it raises exactly
    when, with such a title and start, one of the two conversions raises.
    The loop returns exactly when no iteration raises; the list returned
    has one record for each event that appends one, duplicates included, so
    it is never longer than the feed, and it is empty exactly when every
    iteration ends in [continue]. *)
Theorem output_counts_surviving_events (zone : tzone) (baseline_ms : Z)
    (event_cfg : odict rule) (raw_events more : list (RawEvent tzone)) :
  (∀ ev, (∃ item, event_item zone baseline_ms event_cfg ev = Return (Some item))
         ↔ Str.strip (str_or_empty (ev_title ev)) ≠ ""
           ∧ ∃ d dl ms, _ensure_datetime (ev_starts_at ev) = Some d
                        ∧ localize zone d = Return dl
                        ∧ utc_epoch_ms dl = Some ms
                        ∧ baseline_ms ≤ ms)
  ∧ (∀ ev, (∃ e, event_item zone baseline_ms event_cfg ev = Raise e)
           ↔ Str.strip (str_or_empty (ev_title ev)) ≠ ""
             ∧ ∃ d, _ensure_datetime (ev_starts_at ev) = Some d
                    ∧ (localize zone d = Raise OtherException
                       ∨ ∃ dl, localize zone d = Return dl
                               ∧ utc_epoch_ms dl = None))
  ∧ ((∃ out, events_items zone baseline_ms event_cfg raw_events = Return out)
     ↔ ∀ ev, ev ∈ raw_events → passes zone baseline_ms event_cfg ev)
  ∧ (∀ out,
       events_items zone baseline_ms event_cfg raw_events = Return out →
       length out
       = length (filter (λ ev, is_Some (emitted zone baseline_ms event_cfg ev))
                   raw_events)
       ∧ (length out ≤ length raw_events)%nat
       ∧ (out = [] ↔ ∀ ev, ev ∈ raw_events →
                           event_item zone baseline_ms event_cfg ev = Return None))
  ∧ (∀ out out',
       events_items zone baseline_ms event_cfg raw_events = Return out →
       events_items zone baseline_ms event_cfg more = Return out' →
       ∃ out'',
         events_items zone baseline_ms event_cfg (raw_events ++ more)
         = Return out''
         ∧ length out'' = (length out + length out')%nat).
Proof.
  split_and!.
  - intros ev. split.
    + intros (item & (d & dl & ms & Ht & Hd & Hl & Hms & Hge & _)%event_item_Some).
      split; [done|]. by exists d, dl, ms.
    + intros (Ht & d & dl & ms & Hd & Hl & Hms & Hge). eexists.
      apply event_item_Some. exists d, dl, ms. by split_and!.
  - intros ev. split.
    + intros (e & (_ & Ht & Hd)%event_item_raises). done.
    + intros (Ht & d & Hd & Hfail). exists OtherException.
      unfold event_item, str_truthy. rewrite Hd.
      destruct (String.eqb_spec (Str.strip (str_or_empty (ev_title ev))) "");
        [done|]. cbn [negb].
      destruct Hfail as [->|(dl & -> & Hms)]; [done|].
      cbn [mbind result_bind]. by rewrite Hms.
  - split.
    + intros (out & Hout). by apply events_items_Return_inv in Hout as (? & _).
    + intros Hpass. eexists. by apply events_items_Return.
  - intros out (Hpass & _ & ->)%events_items_Return_inv. split_and!.
    + rewrite (Permutation_length (sort_by_key_perm _ _)).
      apply length_omap_filter.
    + rewrite (Permutation_length (sort_by_key_perm _ _)), length_omap_filter.
      apply length_filter.
    + split.
      * intros Hnil ev Hev. destruct (Hpass ev Hev) as [[item|] Ho]; [|done].
        assert (item ∈ sort_by_key timeISO
                         (omap (emitted zone baseline_ms event_cfg) raw_events))
          as Hin.
        { rewrite sort_by_key_perm. apply elem_of_emitted; [done|]. eauto. }
        rewrite Hnil in Hin. by apply elem_of_nil in Hin.
      * intros Hnone.
        destruct (sort_by_key timeISO
                    (omap (emitted zone baseline_ms event_cfg) raw_events))
          as [|item l] eqn:E; [done|].
        assert (item ∈ sort_by_key timeISO
                         (omap (emitted zone baseline_ms event_cfg) raw_events))
          as Hin by (rewrite E; by left).
        rewrite sort_by_key_perm in Hin.
        apply elem_of_emitted in Hin as (ev & Hev & Hitem); [|done].
        by rewrite Hnone in Hitem.
  - intros out out' (Hpass & _ & ->)%events_items_Return_inv
      (Hpass' & _ & ->)%events_items_Return_inv.
    eexists. split.
    + apply events_items_Return. intros ev [Hev|Hev]%elem_of_app; auto.
    + rewrite !(Permutation_length (sort_by_key_perm _ _)).
      by rewrite omap_app, length_app.
Qed.

(** X6.  [daysDiff] follows the start time: a later start never has a
    smaller [daysDiff], starts less than a day apart differ by at most one,
    and [daysDiff] is 0 exactly for a start within the 24 hours that begin at
    the baseline. *)
Theorem days_diff_monotone (zone : tzone) (baseline_ms : Z) (event_cfg : odict rule)
    (ev1 ev2 : RawEvent tzone) (n1 n2 : NormalizedEvent tzone)
    (item1 item2 : OutputEvent) :
  normalize zone ev1 = Return (Some n1) → normalize zone ev2 = Return (Some n2) →
  event_item zone baseline_ms event_cfg ev1 = Return (Some item1) →
  event_item zone baseline_ms event_cfg ev2 = Return (Some item2) →
  (startsAtUtcMillis n1 ≤ startsAtUtcMillis n2 → daysDiff item1 ≤ daysDiff item2)
  ∧ (startsAtUtcMillis n2 < startsAtUtcMillis n1 + 86400000 →
       daysDiff item2 ≤ daysDiff item1 + 1)
  ∧ (daysDiff item1 = 0 ↔ startsAtUtcMillis n1 < baseline_ms + 86400000).
Proof.
  intros Hn1 Hn2. rewrite !event_item_normalize, Hn1, Hn2.
  destruct (startsAtUtcMillis n1 <? baseline_ms) eqn:H1; [done|].
  destruct (startsAtUtcMillis n2 <? baseline_ms) eqn:H2; [done|].
  apply Z.ltb_ge in H1. apply Z.ltb_ge in H2.
  intros [= <-] [= <-]. cbn [daysDiff].
  set (x1 := startsAtUtcMillis n1 - baseline_ms).
  set (x2 := startsAtUtcMillis n2 - baseline_ms).
  assert (0 ≤ x1) as Hx1 by (subst x1; lia).
  assert (0 ≤ x2) as Hx2 by (subst x2; lia).
  pose proof (Z.div_mod x1 86400000 ltac:(lia)) as E1.
  pose proof (Z.div_mod x2 86400000 ltac:(lia)) as E2.
  pose proof (Z.mod_pos_bound x1 86400000 ltac:(lia)) as B1.
  pose proof (Z.mod_pos_bound x2 86400000 ltac:(lia)) as B2.
  split_and!.
  - intros Hle. assert (x1 ≤ x2) by (subst x1 x2; lia). nia.
  - intros Hlt. assert (x2 < x1 + 86400000) by (subst x1 x2; lia). nia.
  - split.
    + intros Hzero. rewrite Hzero in E1. subst x1. lia.
    + intros Hlt. assert (x1 < 86400000) by (subst x1; lia).
      apply Z.div_small. lia.
Qed.

(** X7.  The order of the events in the feed does not matter to a returned
    list whose records have pairwise distinct [timeISO]: the same list is
    returned for the events in any other order; and a feed on which the
    loop raises makes it raise in any other order. *)
Theorem output_independent_of_feed_order (zone : tzone) (baseline_ms : Z)
    (event_cfg : odict rule) (raw_events raw_events' : list (RawEvent tzone)) :
  raw_events ≡ₚ raw_events' →
  (∀ out,
     events_items zone baseline_ms event_cfg raw_events = Return out →
     NoDup (timeISO <$> out) →
     events_items zone baseline_ms event_cfg raw_events' = Return out)
  ∧ (∀ e,
       events_items zone baseline_ms event_cfg raw_events = Raise e →
       ∃ e', events_items zone baseline_ms event_cfg raw_events' = Raise e').
Proof.
  intros Hperm. split.
  - intros out (Hpass & _ & ->)%events_items_Return_inv Hnd.
    rewrite events_items_Return.
    2:{ intros ev Hev. apply Hpass. by rewrite Hperm. }
    f_equal.
    assert (omap (emitted zone baseline_ms event_cfg) raw_events
            ≡ₚ omap (emitted zone baseline_ms event_cfg) raw_events') as Hitems
      by by rewrite Hperm.
    rewrite sort_by_key_perm in Hnd.
    apply (stable_sorted_unique timeISO); try apply sort_by_key_strongly_sorted.
    intros k. rewrite !sort_by_key_stable. symmetry. apply perm_short_eq.
    + by rewrite Hitems.
    + by apply filter_key_at_most_one.
  - intros e (ev & Hev & Hraise)%events_items_Raise_inv.
    destruct (events_items zone baseline_ms event_cfg raw_events') as [out|e']
      eqn:E; [|by exists e'].
    apply events_items_Return_inv in E as (Hpass & _).
    destruct (Hpass ev) as [o Ho]; [by rewrite <- Hperm|]. congruence.
Qed.

(** X8.  A declared URL that is not blank is the link, trimmed, whatever the
    description says. *)
Theorem declared_url_wins (ev : RawEvent tzone) :
  Str.strip (str_or_empty (ev_url ev)) ≠ "" →
  resolve_link ev = Str.strip (str_or_empty (ev_url ev))
  ∧ trimmed (resolve_link ev)
  ∧ (∀ ev', ev_url ev' = ev_url ev → resolve_link ev' = resolve_link ev).
Proof.
  intros Hurl.
  assert (∀ e : RawEvent tzone, ev_url e = ev_url ev →
            resolve_link e = Str.strip (str_or_empty (ev_url ev))) as Hres.
  { intros e He. unfold resolve_link, str_truthy. rewrite He.
    by destruct (String.eqb_spec (Str.strip (str_or_empty (ev_url ev))) ""). }
  split_and!.
  - by apply Hres.
  - rewrite Hres by done.
    by destruct (strip_split (str_or_empty (ev_url ev))) as (? & ? & _ & _ & _ & ?).
  - intros ev' Hev'. by rewrite !Hres.
Qed.

(** X9.  Without a declared URL the link is empty, or it is a piece of the
    description that begins with [http://] or [https://], holds no
    whitespace and does not end with [")"]. *)
Theorem description_link_shape (ev : RawEvent tzone) :
  Str.strip (str_or_empty (ev_url ev)) = "" →
  resolve_link ev = ""
  ∨ ((String.prefix "http://" (resolve_link ev) = true
      ∨ String.prefix "https://" (resolve_link ev) = true)
     ∧ nonspace (resolve_link ev)
     ∧ Str.ends_with_char ")" (resolve_link ev) = false
     ∧ occurs_in (resolve_link ev) (str_or_empty (ev_description ev))).
Proof.
  intros Hurl. unfold resolve_link. rewrite Hurl.
  cbn [str_truthy negb String.eqb]. rewrite re_search_strip.
  destruct (re_search (str_or_empty (ev_description ev))) as [m|] eqn:E;
    [|by left].
  right. pose proof (re_search_occurs _ _ E) as (a & b & Hab).
  apply re_search_Some in E as (_ & _ & _ & Hm & _).
  pose proof (url_like_nonspace m Hm) as Hns.
  destruct (rstrip_char_split ")" m) as (n & Hn).
  split_and!.
  - destruct Hm as (run & _ & _ & [-> | ->]).
    + left. rewrite rstrip_char_app_keep by done. apply prefix_app.
    + right. rewrite rstrip_char_app_keep by done. apply prefix_app.
  - rewrite Hn in Hns. by apply nonspace_app in Hns as [? _].
  - apply rstrip_char_no_trailing.
  - exists a, (Str.replicate n ")" +:+ b).
    rewrite Hab. rewrite Hn at 1. by rewrite str_app_assoc.
Qed.

(** X10.  Whitespace around the description does not change the link:
    trimming the description before the search finds the same match as
    searching it untrimmed. *)
Theorem description_spacing_is_immaterial (ev ev' : RawEvent tzone) (l r : string) :
  ev_url ev' = ev_url ev → all_space l → all_space r →
  str_or_empty (ev_description ev')
  = l +:+ str_or_empty (ev_description ev) +:+ r →
  resolve_link ev' = resolve_link ev
  ∧ re_search (Str.strip (str_or_empty (ev_description ev)))
    = re_search (str_or_empty (ev_description ev)).
Proof.
  intros Hurl Hl Hr Hdesc. split; [|apply re_search_strip].
  unfold resolve_link. rewrite Hurl, Hdesc. by rewrite strip_surrounding.
Qed.

End Records.

Lemma emitted_record_provenance_witness :
  main Demo.item_foo ≠ "" ∧ trimmed (main Demo.item_foo)
  ∧ isAllDay Demo.item_foo = false.
Proof.
  destruct (emitted_record_provenance Demo.phoenix Demo.baseline Demo.event_cfg
              [Demo.ev_foo; Demo.ev_paren] [Demo.item_paren; Demo.item_foo]
              Demo.item_foo) as (Hmain & Htrim & Hday & _).
  - apply demo_items.
  - apply elem_of_cons. right. apply elem_of_cons. by left.
  - done.
Defined.

Lemma output_counts_surviving_events_witness :
  (∃ item, event_item Demo.phoenix Demo.baseline Demo.event_cfg Demo.ev_foo
           = Return (Some item))
  ∧ (∃ e, event_item Demo.tokyo Demo.baseline Demo.event_cfg Demo.ev_last_second
          = Raise e)
  ∧ length [Demo.item_paren; Demo.item_foo]
    = length (filter (λ ev, is_Some (emitted Demo.phoenix Demo.baseline
                                       Demo.event_cfg ev))
                [Demo.ev_foo; Demo.ev_paren]).
Proof.
  destruct (output_counts_surviving_events Demo.phoenix Demo.baseline
              Demo.event_cfg [Demo.ev_foo; Demo.ev_paren] [])
    as (Happend & _ & _ & Hcount & _).
  destruct (output_counts_surviving_events Demo.tokyo Demo.baseline
              Demo.event_cfg [Demo.ev_last_second] []) as (_ & Hraise & _).
  split_and!.
  - apply Happend. split; [vm_compute; discriminate|].
    do 3 eexists. split_and!; [vm_compute; reflexivity..|].
    vm_compute. discriminate.
  - apply Hraise. split; [vm_compute; discriminate|].
    eexists. split; [vm_compute; reflexivity|]. left. vm_compute. reflexivity.
  - by destruct (Hcount [Demo.item_paren; Demo.item_foo] demo_items) as (Hlen & _).
Defined.

Lemma days_diff_monotone_witness :
  daysDiff Demo.item_paren ≤ daysDiff Demo.item_foo
  ∧ daysDiff Demo.item_paren = 0.
Proof.
  edestruct (days_diff_monotone Demo.phoenix Demo.baseline Demo.event_cfg
               Demo.ev_paren Demo.ev_foo) as (Hmono & _ & Hzero);
    [vm_compute; reflexivity..|].
  split.
  - apply Hmono. vm_compute. discriminate.
  - apply Hzero. vm_compute. reflexivity.
Defined.

Lemma output_independent_of_feed_order_witness :
  events_items Demo.phoenix Demo.baseline Demo.event_cfg [Demo.ev_paren; Demo.ev_foo]
  = Return [Demo.item_paren; Demo.item_foo].
Proof.
  destruct (output_independent_of_feed_order Demo.phoenix Demo.baseline
              Demo.event_cfg [Demo.ev_foo; Demo.ev_paren]
              [Demo.ev_paren; Demo.ev_foo]) as (Hsame & _).
  - apply perm_swap.
  - apply Hsame.
    + apply demo_items.
    + apply (bool_decide_unpack _). vm_compute. exact I.
Defined.

Lemma declared_url_wins_witness :
  resolve_link Demo.ev_foo = "https://meetup.test/foo".
Proof.
  destruct (declared_url_wins Demo.ev_foo) as (Hlink & _).
  - vm_compute. discriminate.
  - rewrite Hlink. reflexivity.
Defined.

Lemma description_link_shape_witness :
  resolve_link Demo.ev_paren = ""
  ∨ ((String.prefix "http://" (resolve_link Demo.ev_paren) = true
      ∨ String.prefix "https://" (resolve_link Demo.ev_paren) = true)
     ∧ nonspace (resolve_link Demo.ev_paren)
     ∧ Str.ends_with_char ")" (resolve_link Demo.ev_paren) = false
     ∧ occurs_in (resolve_link Demo.ev_paren)
         (str_or_empty (ev_description Demo.ev_paren))).
Proof. apply (description_link_shape Demo.ev_paren). reflexivity. Defined.

Lemma description_spacing_is_immaterial_witness :
  resolve_link
    {| ev_title := Some "Bar night"; ev_starts_at := StartNone; ev_url := None;
       ev_description := Some "  Join us (https://x.test/e/1)) " |}
  = resolve_link Demo.ev_paren.
Proof.
  destruct (description_spacing_is_immaterial Demo.ev_paren
              {| ev_title := Some "Bar night"; ev_starts_at := StartNone;
                 ev_url := None;
                 ev_description := Some "  Join us (https://x.test/e/1)) " |}
              "  " " ") as (Hsame & _).
  - reflexivity.
  - vm_compute. tauto.
  - vm_compute. tauto.
  - reflexivity.
  - exact Hsame.
Defined.

(** ** The rule matcher *)

(** X11.  The rule matcher always decides one of two ways: no key other than
    ["default"] matches the title and the rule is the default one (the empty
    rule when there is none), or the rule is that of the first matching
    key. *)
Theorem rule_matcher_decision (title : string) (cfg : odict rule) :
  NoDup (od_keys cfg) →
  ((∀ k, k ∈ od_keys cfg → k ≠ "default" → ¬ matches_title title k)
   ∧ _pick_event_cfg title cfg = default ∅ (od_get cfg "default"))
  ∨ (∃ pre k r post,
       cfg = pre ++ (k, r) :: post ∧ k ≠ "default" ∧ matches_title title k
       ∧ (∀ k', k' ∈ od_keys pre → k' ≠ "default" → ¬ matches_title title k')
       ∧ _pick_event_cfg title cfg = r).
Proof.
  intros Hnd.
  destruct (first_matching_key title cfg)
    as [Hnone|(pre & k & r & post & -> & Hk & Hm & Hpre)].
  - left. split; [done|]. by apply pick_no_match.
  - right. exists pre, k, r, post. split_and!; try done.
    by apply pick_first_match.
Qed.

(** X12.  An empty override key matches every title: when the configuration
    has one, the rule chosen is always that of a key other than ["default"],
    so the default rule is never used. *)
Theorem empty_key_overrides_default (title : string) (cfg : odict rule) :
  NoDup (od_keys cfg) → "" ∈ od_keys cfg →
  ∃ k r, (k, r) ∈ cfg ∧ k ≠ "default" ∧ matches_title title k
         ∧ _pick_event_cfg title cfg = r.
Proof.
  intros Hnd Hin.
  destruct (first_matching_key title cfg)
    as [Hnone|(pre & k & r & post & -> & Hk & Hm & Hpre)].
  - destruct (Hnone "" Hin); [done|]. by exists "", (Str.lower title).
  - exists k, r. split_and!; try done.
    + apply elem_of_app. right. by left.
    + by apply pick_first_match.
Qed.

(** X13.  The rule matcher ignores letter case: titles with the same
    lowercase form get the same rule, the lowercased title among them, and a
    key matches exactly when its lowercase form does. *)
Theorem rule_matcher_ignores_case (title : string) (cfg : odict rule) :
  _pick_event_cfg (Str.lower title) cfg = _pick_event_cfg title cfg
  ∧ (∀ title', Str.lower title' = Str.lower title →
       _pick_event_cfg title' cfg = _pick_event_cfg title cfg)
  ∧ (∀ k, matches_title title (Str.lower k) ↔ matches_title title k).
Proof.
  split_and!.
  - unfold _pick_event_cfg. by rewrite lower_idemp.
  - intros title' Heq. unfold _pick_event_cfg. by rewrite Heq.
  - intros k. unfold matches_title. by rewrite lower_idemp.
Qed.

Lemma rule_matcher_decision_witness :
  ((∀ k, k ∈ od_keys Demo.event_cfg → k ≠ "default" → ¬ matches_title "Picnic" k)
   ∧ _pick_event_cfg "Picnic" Demo.event_cfg
     = default ∅ (od_get Demo.event_cfg "default"))
  ∨ (∃ pre k r post,
       Demo.event_cfg = pre ++ (k, r) :: post ∧ k ≠ "default"
       ∧ matches_title "Picnic" k
       ∧ (∀ k', k' ∈ od_keys pre → k' ≠ "default" → ¬ matches_title "Picnic" k')
       ∧ _pick_event_cfg "Picnic" Demo.event_cfg = r).
Proof.
  apply (rule_matcher_decision "Picnic" Demo.event_cfg).
  apply (bool_decide_unpack _). vm_compute. exact I.
Defined.

Lemma empty_key_overrides_default_witness :
  ∃ k r, (k, r) ∈ [("default", Demo.rule_default); ("", Demo.rule_bar);
                    ("Foo", Demo.rule_foo)]
         ∧ k ≠ "default" ∧ matches_title "Foo fighters" k
         ∧ _pick_event_cfg "Foo fighters"
             [("default", Demo.rule_default); ("", Demo.rule_bar);
              ("Foo", Demo.rule_foo)] = r.
Proof.
  apply (empty_key_overrides_default "Foo fighters"
           [("default", Demo.rule_default); ("", Demo.rule_bar);
            ("Foo", Demo.rule_foo)]).
  - apply (bool_decide_unpack _). vm_compute. exact I.
  - apply (bool_decide_unpack _). vm_compute. exact I.
Defined.

Lemma rule_matcher_ignores_case_witness :
  _pick_event_cfg "BAR CRAWL WITH THE FOO CLUB" Demo.event_cfg
  = _pick_event_cfg "bar crawl with the foo club" Demo.event_cfg.
Proof.
  destruct (rule_matcher_ignores_case "bar crawl with the foo club" Demo.event_cfg)
    as (_ & Hsame & _).
  apply Hsame. reflexivity.
Defined.

(** ** The start-time text *)

Section StartText.
Context `{DatetimeLib}.

(** X14.  Whitespace around a start-time string does not matter, a trailing
    [Z] reads as a trailing [+00:00], and the parser is never handed a text
    that ends with [Z]. *)
Theorem start_text_spacing_and_zulu :
  (∀ l s r, all_space l → all_space r →
     _ensure_datetime (StartStr (l +:+ s +:+ r)) = _ensure_datetime (StartStr s))
  ∧ (∀ p, _ensure_datetime (StartStr (p +:+ "Z"))
          = _ensure_datetime (StartStr (p +:+ "+00:00")))
  ∧ (∀ s, Str.ends_with_char "Z" (iso_text s) = false).
Proof.
  split_and!.
  - intros l s r Hl Hr. simpl. unfold iso_text. by rewrite strip_surrounding.
  - intros p. simpl. f_equal. unfold iso_text.
    rewrite (strip_app_last p "Z") by done.
    pose proof (strip_app_nonspace p "00:0" "+" "0" eq_refl eq_refl) as Hs.
    change (String "+" ("00:0" +:+ "0")) with "+00:00" in Hs. rewrite Hs.
    rewrite ends_with_char_app, drop_last_app.
    replace (Str.lstrip p +:+ "+00:00")
      with ((Str.lstrip p +:+ "+00:0") +:+ "0") by by rewrite str_app_assoc.
    by rewrite ends_with_char_last.
  - intros s. unfold iso_text.
    destruct (Str.ends_with_char "Z" (Str.strip s)) eqn:E; [|done].
    replace (Str.drop_last (Str.strip s) +:+ "+00:00")
      with ((Str.drop_last (Str.strip s) +:+ "+00:0") +:+ "0")
      by by rewrite str_app_assoc.
    by rewrite ends_with_char_last.
Qed.

End StartText.

Lemma start_text_spacing_and_zulu_witness :
  _ensure_datetime (StartStr (" " +:+ "2025-06-02T09:00:00Z" +:+ "  "))
  = _ensure_datetime (StartStr "2025-06-02T09:00:00Z").
Proof.
  destruct start_text_spacing_and_zulu as (Hspace & _).
  apply Hspace; vm_compute; tauto.
Defined.

(** ** The fetch and the source, outcome by outcome *)

Section FetchOutcomes.
Context `{Upstream}.

(** X15.  With a response that delivers its body, the fetch never truncates:
    what it returns is the whole body the server sent, and then the cap is
    not negative; it fails only because the connection could not be opened
    or because the body is longer than the cap. *)
Theorem fetch_returns_whole_body_or_fails (url : pyval) (max_bytes : Z) :
  (∀ f, urlopen url = Some f → delivers f) →
  (∀ data, _fetch_html url max_bytes = Return data →
     ∃ f, urlopen url = Some f ∧ body f = data ∧ 0 ≤ max_bytes)
  ∧ (∀ e, _fetch_html url max_bytes = Raise e →
       (e = OtherException ∧ urlopen url = None)
       ∨ (e = HTTPException 413 (TooLarge max_bytes)
          ∧ ∃ f, urlopen url = Some f
                 ∧ max_bytes < Z.of_nat (length (body f))))
  ∧ (max_bytes < 0 → ∀ data, _fetch_html url max_bytes ≠ Return data).
Proof.
  intros Hdelivers.
  assert (∀ data, _fetch_html url max_bytes = Return data →
            ∃ f, urlopen url = Some f ∧ body f = data ∧ 0 ≤ max_bytes) as Hret.
  { intros data Hdata. destruct (urlopen url) as [f|] eqn:Hf.
    - rewrite (fetch_delivered url max_bytes f Hf (Hdelivers f eq_refl)) in Hdata.
      destruct (_ >? _) eqn:E; [done|]. injection Hdata as <-.
      rewrite Z.gtb_ltb in E. apply Z.ltb_ge in E.
      exists f. split_and!; [done..|lia].
    - unfold _fetch_html in Hdata. by rewrite Hf in Hdata. }
  split_and!; [done|..].
  - intros e He. destruct (urlopen url) as [f|] eqn:Hf.
    + rewrite (fetch_delivered url max_bytes f Hf (Hdelivers f eq_refl)) in He.
      destruct (_ >? _) eqn:E; [|done]. injection He as <-. right.
      split; [done|]. exists f. split; [done|].
      rewrite Z.gtb_ltb in E. by apply Z.ltb_lt in E.
    + unfold _fetch_html in He. rewrite Hf in He. injection He as <-. by left.
  - intros Hneg data Hdata. apply Hret in Hdata as (_ & _ & _ & ?). lia.
Qed.

End FetchOutcomes.

Lemma fetch_returns_whole_body_or_fails_witness :
  ∃ f, @urlopen _ Demo.net (VStr "https://meetup.test/pydata") = Some f
       ∧ @body _ Demo.net f = Demo.page ∧ 0 ≤ 4.
Proof.
  destruct (@fetch_returns_whole_body_or_fails _ Demo.net
              (VStr "https://meetup.test/pydata") 4) as (Hret & _).
  - intros f _. apply demo_delivers.
  - apply Hret. vm_compute. reflexivity.
Defined.

(** X16.  Every [HTTPException] of source selection has status 400, for a
    missing source (no URL, no group, and not exactly one configured group)
    or for the given group, whose configured value is then missing or
    falsy; a source it returns is the given URL, or the value configured
    for the given group, which is then not empty, or the value of the only
    configured group, which is returned unchecked. *)
Theorem source_selection_outcomes (cfg : Config) (group url : option string) :
  let groups := default ∅ (meetup_groups cfg) in
  (∀ status d,
     _determine_meetup_url cfg group url = Raise (HTTPException status d) →
     status = 400 ∧ not_provided url
     ∧ ((not_provided group ∧ size groups ≠ 1%nat ∧ d = MissingSource)
        ∨ (∃ g, group = Some g ∧ g ≠ ""
                ∧ truthy (dict_get groups g) = false
                ∧ d = UnknownGroup g)))
  ∧ (∀ v, _determine_meetup_url cfg group url = Return v →
       (∃ u, url = Some u ∧ u ≠ "" ∧ v = VStr u)
       ∨ (∃ g, not_provided url ∧ groups !! g = Some v
               ∧ (group = Some g ∧ g ≠ "" ∧ truthy v = true
                  ∨ not_provided group ∧ groups = {[ g := v ]}))).
Proof.
  intros groups. unfold _determine_meetup_url. fold groups.
  destruct (given url) as [u|] eqn:Hu.
  { split; [done|]. intros v [= <-]. left. exists u.
    unfold given in Hu. destruct url as [u'|]; [|done]. unfold str_truthy in Hu.
    destruct (String.eqb_spec u' ""); [done|]. by injection Hu as ->. }
  apply given_None in Hu.
  destruct (given group) as [g|] eqn:Hg.
  - assert (group = Some g ∧ g ≠ "") as [Hgroup Hne].
    { unfold given in Hg. destruct group as [g'|]; [|done]. unfold str_truthy in Hg.
      destruct (String.eqb_spec g' ""); [done|]. by injection Hg as ->. }
    destruct (truthy (dict_get groups g)) eqn:Ht; cbn [negb]; split; try done.
    + intros v [= <-]. right. exists g. split_and!; [done| |by left].
      unfold dict_get in *. by destruct (groups !! g).
    + intros status d [= <- <-]. split_and!; [done..|]. right. by exists g.
  - apply given_None in Hg.
    destruct (size groups =? 1)%nat eqn:Hsz.
    + apply Nat.eqb_eq in Hsz.
      destruct (map_size_1_inv groups Hsz) as (k & v & -> & Hm).
      split; [done|]. intros v' [= <-]. right. exists k. split_and!; [done| |by right].
      rewrite Hm. apply lookup_singleton_eq.
    + apply Nat.eqb_neq in Hsz. split; [|done]. intros status d [= <- <-].
      split_and!; [done..|]. by left.
Qed.

Lemma source_selection_outcomes_witness :
  400 = 400 ∧ not_provided None
  ∧ ((not_provided (Some "Empty")
      ∧ size (default ∅ (meetup_groups Demo.cfg_two_groups)) ≠ 1%nat
      ∧ UnknownGroup "Empty" = MissingSource)
     ∨ (∃ g, Some "Empty" = Some g ∧ g ≠ ""
             ∧ truthy (dict_get (default ∅ (meetup_groups Demo.cfg_two_groups)) g)
               = false
             ∧ UnknownGroup "Empty" = UnknownGroup g)).
Proof.
  destruct (source_selection_outcomes Demo.cfg_two_groups (Some "Empty") None)
    as (Hraise & _).
  apply Hraise. vm_compute. reflexivity.
Defined.

(** ** The configuration file *)

(** X17.  A configuration that loads always has the keys [default_tz] and
    [meetup_groups]; the entries of the document stay as they are, in their
    order and with their values, a null value included; an empty document
    gives exactly the two defaults. *)
Theorem load_config_sets_defaults (file : file_outcome) (cfg : pydict) :
  load_config file = inr cfg →
  is_Some (py_get cfg "default_tz") ∧ is_Some (py_get cfg "meetup_groups")
  ∧ (∀ kvs, file = Loaded (VDict kvs) →
       (∃ added, cfg = kvs ++ added)
       ∧ ∀ name v, py_get kvs name = Some v → py_get cfg name = Some v)
  ∧ (∀ doc, file = Loaded doc → truthy doc = false →
       cfg = [(VStr "default_tz", VStr "America/Los_Angeles");
              (VStr "meetup_groups", VDict [])]).
Proof.
  destruct file as [| |doc]; [done..|]. unfold load_config.
  destruct (py_or doc (VDict [])) as [| | | | |kvs] eqn:Hdoc; try done.
  intros [= <-].
  set (c1 := setdefault kvs "default_tz" (VStr "America/Los_Angeles")).
  destruct (setdefault_spec kvs "default_tz" (VStr "America/Los_Angeles"))
    as ((a1 & Ha1) & [v1 Hv1] & Hkeep1).
  destruct (setdefault_spec c1 "meetup_groups" (VDict []))
    as ((a2 & Ha2) & Hv2 & Hkeep2).
  fold c1 in Ha1, Hv1, Hkeep1. split_and!.
  - exists v1. by apply Hkeep2.
  - done.
  - intros kvs' [= ->]. unfold py_or in Hdoc.
    assert (kvs' = kvs) as ->.
    { destruct (truthy (VDict kvs')) eqn:Ht; [by injection Hdoc|].
      destruct kvs'; [by injection Hdoc|done]. }
    split.
    + exists (a1 ++ a2). by rewrite Ha2, Ha1, <- app_assoc.
    + intros name v Hget. by apply Hkeep2, Hkeep1.
  - intros doc' [= ->] Hfalsy. unfold py_or in Hdoc. rewrite Hfalsy in Hdoc.
    injection Hdoc as <-. done.
Qed.

Lemma load_config_sets_defaults_witness :
  py_get [(VStr "default_tz", VNone); (VStr "meetup_groups", VDict [])]
    "default_tz" = Some VNone.
Proof.
  destruct (load_config_sets_defaults
              (Loaded (VDict [(VStr "default_tz", VNone)]))
              [(VStr "default_tz", VNone); (VStr "meetup_groups", VDict [])])
    as (_ & _ & Hkeep & _).
  - reflexivity.
  - destruct (Hkeep [(VStr "default_tz", VNone)]) as (_ & Hsame); [reflexivity|].
    apply Hsame. reflexivity.
Defined.

(** X18.  Over any sequence of requests: without reloading, [CONFIG] stays
    what it was at startup; with reloading, [CONFIG] is the configuration of
    the last request whose file loaded, or the startup one when none did.  A
    request that gets a configuration gets the one [CONFIG] then holds, and a
    failed reload leaves [CONFIG] as it was. *)
Theorem get_config_over_requests (files : list file_outcome) (CONFIG : pydict) :
  foldl (λ c f, (_get_config false f c).2) CONFIG files = CONFIG
  ∧ foldl (λ c f, (_get_config true f c).2) CONFIG files
    = default CONFIG
        (last (omap (λ f, match load_config f with
                          | inr cfg => Some cfg
                          | inl _ => None
                          end) files))
  ∧ (∀ reload f,
       match _get_config reload f CONFIG with
       | (inr cfg, CONFIG') => CONFIG' = cfg
       | (inl _, CONFIG') => CONFIG' = CONFIG ∧ reload = true
       end).
Proof.
  split_and!.
  - by induction files as [|f files IH].
  - revert CONFIG. induction files as [|f files IH]; intros CONFIG; [done|].
    cbn [foldl]. rewrite IH. unfold _get_config. simpl omap.
    destruct (load_config f) as [e|cfg]; cbn [snd]; [done|].
    by rewrite default_last_cons.
  - intros [] f; unfold _get_config; [|done].
    by destruct (load_config f).
Qed.
